(** * Workspace selector and response-body decoder

    A shallow embedding of

      - [utils/read-stream]: [readStream] and [readJsonFromStream];
      - [workplace-selector/index.tsx]: the three event handlers
        [handleSwitchWorkspace], [handleCreateWorkspace] and
        [handleDeleteWorkspace] of the [WorkplaceSelector] component.

    The handlers are effectful: they call remote services, push toast
    notifications, navigate, and queue React state updates.  They are
    embedded in a small state-and-completion monad whose completions are
    those of JavaScript (normal, [return], [throw]), so that [try],
    [catch] and [finally] read as they do in the source.

    What the browser provides ([JSON.parse], [JSON.stringify],
    [TextDecoder], [TextEncoder], the number type) is a parameter of the
    development, gathered in the class [Platform]; a small executable
    instance, [Ref.platform], is used to run the code on concrete
    inputs. *)

From Stdlib Require Import List String Ascii NArith ZArith Bool Lia.
From Stdlib.Strings Require Import Byte.
Import ListNotations.

Set Warnings "-register-all".

(* ================================================================= *)
(** ** JavaScript strings *)

(** A JavaScript string is a sequence of UTF-16 code units. *)
Definition JSString := list N.

(** A string literal of the source text (ASCII). *)
Definition lit (s : string) : JSString :=
  map N_of_ascii (list_ascii_of_string s).

Fixpoint jsstr_eqb (a b : JSString) : bool :=
  match a, b with
  | [], [] => true
  | x :: a', y :: b' => N.eqb x y && jsstr_eqb a' b'
  | _, _ => false
  end.

(** ECMAScript [WhiteSpace] and [LineTerminator] code points, the ones
    [String.prototype.trim] strips.  All of them are in the BMP. *)
Definition is_js_whitespace (c : N) : bool :=
  (N.eqb c 9 || N.eqb c 10 || N.eqb c 11 || N.eqb c 12 || N.eqb c 13
   || N.eqb c 32 || N.eqb c 160 || N.eqb c 5760
   || (N.leb 8192 c && N.leb c 8202)
   || N.eqb c 8232 || N.eqb c 8233 || N.eqb c 8239 || N.eqb c 8287
   || N.eqb c 12288 || N.eqb c 65279)%bool.

Fixpoint trimStart (s : JSString) : JSString :=
  match s with
  | c :: s' => if is_js_whitespace c then trimStart s' else s
  | [] => []
  end.

Definition trimEnd (s : JSString) : JSString := rev (trimStart (rev s)).

(** [s.trim()] *)
Definition trim (s : JSString) : JSString := trimEnd (trimStart s).

(** [ToBoolean] on a string: only the empty string is falsy. *)
Definition truthy_string (s : JSString) : bool :=
  match s with [] => false | _ => true end.

(* ================================================================= *)
(** ** Structured (JSON) values *)

(** The values [JSON.parse] produces.  [Num] is the number type of the
    platform (IEEE doubles in a browser), kept abstract.  An object is
    its list of own properties; a property is looked up by its first
    occurrence. *)
Inductive JSONValue (Num : Type) : Type :=
| JNull
| JBool (b : bool)
| JNumber (n : Num)
| JString (s : JSString)
| JArray (items : list (JSONValue Num))
| JObject (fields : list (JSString * JSONValue Num)).

Arguments JNull {Num}.
Arguments JBool {Num} b.
Arguments JNumber {Num} n.
Arguments JString {Num} s.
Arguments JArray {Num} items.
Arguments JObject {Num} fields.

Fixpoint lookup_field {A : Type} (k : JSString) (fs : list (JSString * A))
  : option A :=
  match fs with
  | [] => None
  | (k', v) :: fs' => if jsstr_eqb k k' then Some v else lookup_field k fs'
  end.

(* ================================================================= *)
(** ** Readable streams *)

(** A chunk of a byte stream ([Uint8Array]). *)
Definition Chunk := list byte.

(** The operations performed on a stream, recorded in order. *)
Inductive StreamOp := OpGetReader | OpRead.

(** A [ReadableStream] whose producer has finished: the chunks still
    queued, whether a reader holds the lock, whether the stream is
    errored, and the operations performed on it so far. *)
Record ReadableStream := mkStream {
  queue : list Chunk;
  locked : bool;
  errored : bool;
  oplog : list StreamOp
}.

(** A stream nobody has touched, holding the chunks [cs]. *)
Definition fresh_stream (cs : list Chunk) : ReadableStream :=
  {| queue := cs; locked := false; errored := false; oplog := [] |}.

(* ================================================================= *)
(** ** Exceptions and completions *)

(** What a rejected remote call carries: [error.body] is a stream, or
    is missing ([None]: [undefined] or [null]). *)
Record Rejection := { body : option ReadableStream }.

Inductive Exn :=
| TypeError               (* a method called on a missing or locked stream *)
| StreamError             (* a read on an errored stream *)
| SyntaxError             (* raised by JSON.parse *)
| Rejected (r : Rejection) (* a remote call that failed *).

(** JavaScript completions of a statement inside a function whose result
    has type [R]: normal (with the value [a] of the statement),
    [return r], [throw e]. *)
Inductive Completion (R A : Type) : Type :=
| Normal (a : A)
| Return (r : R)
| Throw (e : Exn).

Arguments Normal {R A} a.
Arguments Return {R A} r.
Arguments Throw {R A} e.

Module Eff.
Section Eff.
Variable S : Type.

Definition M (R A : Type) : Type := S -> Completion R A * S.

Definition ret {R A} (a : A) : M R A := fun s => (Normal a, s).

Definition bind {R A B} (m : M R A) (k : A -> M R B) : M R B :=
  fun s =>
    match m s with
    | (Normal a, s') => k a s'
    | (Return r, s') => (Return r, s')
    | (Throw e, s') => (Throw e, s')
    end.

Definition throw {R A} (e : Exn) : M R A := fun s => (Throw e, s).

(** [return r] *)
Definition return_ {R A} (r : R) : M R A := fun s => (Return r, s).

Definition modify {R} (f : S -> S) : M R unit := fun s => (Normal tt, f s).

(** [try { m } catch (e) { h e }] *)
Definition try_catch {R A} (m : M R A) (h : Exn -> M R A) : M R A :=
  fun s =>
    match m s with
    | (Throw e, s') => h e s'
    | r => r
    end.

(** [try { m } finally { f }]: [f] runs on every completion of [m]; an
    abrupt completion of [f] replaces that of [m]. *)
Definition try_finally {R A} (m : M R A) (f : M R unit) : M R A :=
  fun s =>
    match m s with
    | (c, s') =>
        match f s' with
        | (Normal _, s'') => (c, s'')
        | (Return r, s'') => (Return r, s'')
        | (Throw e, s'') => (Throw e, s'')
        end
    end.

(** The boundary of a function whose every path ends in [return] or
    [throw]: a call completes normally with the value returned. *)
Definition fn {R R'} (m : M R Empty_set) : M R' R :=
  fun s =>
    match m s with
    | (Normal a, _) => match a with end
    | (Return r, s') => (Normal r, s')
    | (Throw e, s') => (Throw e, s')
    end.

(** The boundary of a function without result: [return] and falling off
    the end both complete the call normally. *)
Definition fn_void {R'} (m : M unit unit) : M R' unit :=
  fun s =>
    match m s with
    | (Normal _, s') => (Normal tt, s')
    | (Return _, s') => (Normal tt, s')
    | (Throw e, s') => (Throw e, s')
    end.

End Eff.
End Eff.

Arguments Eff.ret {S R A} a.
Arguments Eff.bind {S R A B} m k.
Arguments Eff.throw {S R A} e.
Arguments Eff.return_ {S R A} r.
Arguments Eff.modify {S R} f.
Arguments Eff.try_catch {S R A} m h.
Arguments Eff.try_finally {S R A} m f.
Arguments Eff.fn {S R R'} m.
Arguments Eff.fn_void {S R'} m.

Declare Scope eff_scope.
Delimit Scope eff_scope with eff.
Notation "x <- m ;; k" := (Eff.bind m (fun x => k))
  (at level 61, m at next level, right associativity) : eff_scope.
Notation "m ;; k" := (Eff.bind m (fun _ => k))
  (at level 61, right associativity) : eff_scope.
Open Scope eff_scope.

(* ================================================================= *)
(** ** The platform *)

(** The built-ins the code calls.  [JSON_parse] returns [None] where
    [JSON.parse] raises [SyntaxError].  [TextDecoder_decode] takes the
    [value] of a read, which is [undefined] ([None]) at the end of the
    stream. *)
Class Platform := {
  JSNumber : Type;
  truthy_number : JSNumber -> bool;
  JSON_parse : JSString -> option (JSONValue JSNumber);
  JSON_stringify : JSONValue JSNumber -> JSString;
  TextDecoder_decode : option Chunk -> JSString;
  TextEncoder_encode : JSString -> Chunk
}.

(* ================================================================= *)
(** ** utils/read-stream *)

Module ReadStream.

(** The result of [readJsonFromStream]: [data] is the parsed value or,
    on a parse failure, the body text (a string); [error] is [null]
    ([None]) or the exception caught. *)
Record DecodedBody (Num : Type) := {
  data : JSONValue Num;
  error : option Exn
}.

Arguments Build_DecodedBody {Num} data error.
Arguments data {Num} d.
Arguments error {Num} d.

Section ReadStream.
Context {P : Platform}.

(** The state the decoder acts on is its argument: a stream, or
    something that is not one ([None]). *)
Definition St := option ReadableStream.

Inductive Reader := TheReader.

Definition log_op (op : StreamOp) (s : ReadableStream) : ReadableStream :=
  {| queue := queue s; locked := locked s; errored := errored s;
     oplog := oplog s ++ [op] |}.

(** [stream.getReader()]: raises on a locked stream, locks it otherwise. *)
Definition getReader {R} : Eff.M St R Reader :=
  fun st =>
    match st with
    | None => (Throw TypeError, None)
    | Some s =>
        let s' := log_op OpGetReader s in
        if locked s then (Throw TypeError, Some s')
        else (Normal TheReader,
              Some {| queue := queue s'; locked := true;
                      errored := errored s'; oplog := oplog s' |})
    end.

(** [reader.read()], of which the code keeps [value] only: the first
    chunk queued, or [undefined] when none is left. *)
Definition read {R} (_ : Reader) : Eff.M St R (option Chunk) :=
  fun st =>
    match st with
    | None => (Throw TypeError, None)
    | Some s =>
        let s' := log_op OpRead s in
        if errored s then (Throw StreamError, Some s')
        else
          match queue s with
          | c :: q =>
              (Normal (Some c),
               Some {| queue := q; locked := locked s';
                       errored := errored s'; oplog := oplog s' |})
          | [] => (Normal None, Some s')
          end
    end.

Definition readStream {R} : Eff.M St R JSString :=
  Eff.fn (
    reader <- getReader ;;
    value <- read reader ;;
    Eff.return_ (TextDecoder_decode value)).

(** [JSON.parse], raising where the platform's does. *)
Definition JSON_parse_m {R} (text : JSString)
  : Eff.M St R (JSONValue JSNumber) :=
  match JSON_parse text with
  | Some v => Eff.ret v
  | None => Eff.throw SyntaxError
  end.


Definition readJsonFromStream {R} : Eff.M St R (DecodedBody JSNumber) :=
  Eff.fn (
    bodyText <- readStream ;;
    Eff.try_catch
      (parsed <- JSON_parse_m bodyText ;;
       Eff.return_ {| data := parsed; error := None |})
      (fun error =>
         Eff.return_ {| data := JString bodyText; error := Some error |})).

End ReadStream.
End ReadStream.

(* ================================================================= *)
(** ** workplace-selector/index.tsx *)

Module WorkplaceSelector.

(** An entry of the workspace list of [useWorkspacesContext]. *)
Record Workspace := {
  id : JSString;
  name : JSString;
  current : bool;
  role : JSString;
  plan : JSString
}.

(** The argument of [showDeleteConfirm], kept in [workspaceToDelete]. *)
Record WorkspaceRef := { ref_id : JSString; ref_name : JSString }.

(** A translated message: [t key], or two messages concatenated. *)
Inductive Message :=
| t (key : string)
| msg_plus (a b : Message).

Inductive NotifyType := success | error.

(** What a handler does to the outside, in order. *)
Inductive Event :=
| CallSwitchWorkspace (url : string) (tenant_id : JSString)
| CallCreateWorkspace (url : string) (name : JSString)
| CallDeleteWorkspace (url : string) (workspace_id : JSString)
| Notify (type : NotifyType) (message : Message)
| LocationAssign (url : JSString).

(** The component's [useState] cells. *)
Record UIState := {
  isCreating : bool;
  newWorkspaceName : JSString;
  loading : bool;
  isDeleting : bool;
  workspaceToDelete : option WorkspaceRef
}.

Record World := { ui : UIState; events : list Event }.

(** How a remote call ends. *)
Inductive Outcome (A : Type) : Type :=
| Resolves (a : A)
| Rejects (r : Rejection).

Arguments Resolves {A} a.
Arguments Rejects {A} r.

(** The payload of a successful create. *)
Record CreateRst := { rst_id : JSString }.

(** The back end, as seen from the component ([@/service/common]): what
    each call answers, given the body of the request. *)
Record Services := {
  switchWorkspace_answer : JSString -> Outcome unit;
  createWorkspace_answer : JSString -> Outcome CreateRst;
  deleteWorkspace_answer : JSString -> Outcome unit
}.

Definition emit (e : Event) (w : World) : World :=
  {| ui := ui w; events := events w ++ [e] |}.

Definition update_ui (f : UIState -> UIState) (w : World) : World :=
  {| ui := f (ui w); events := events w |}.

(** [ToBoolean] of a value *)
Definition truthy {Num} (truthy_num : Num -> bool) (v : JSONValue Num)
  : bool :=
  match v with
  | JNull => false
  | JBool b => b
  | JNumber n => truthy_num n
  | JString s => truthy_string s
  | JArray _ => true
  | JObject _ => true
  end.

(** [v.code] for a non-nullish [v]: [undefined] ([None]) unless [v] is an
    object with an own property [code]; no primitive wrapper and no array
    has a property of that name. *)
Definition get_code {Num} (v : JSONValue Num) : option (JSONValue Num) :=
  match v with
  | JObject fields => lookup_field (lit "code") fields
  | _ => None
  end.

(** [x === s] for a string constant [s] *)
Definition strict_eq_lit {Num} (x : option (JSONValue Num)) (s : string)
  : bool :=
  match x with
  | Some (JString s') => jsstr_eqb s' (lit s)
  | _ => false
  end.

(** [error.body] of whatever was caught *)
Definition body_of (e : Exn) : option ReadableStream :=
  match e with
  | Rejected r => body r
  | _ => None
  end.

Section Component.
Context {P : Platform}.
Variable services : Services.
(** [location.origin], and [basePath] of [@/utils/var] *)
Variable location_origin : JSString.
Variable basePath : JSString.
(** [workspaces] of the context *)
Variable workspaces : list Workspace.

Definition M := Eff.M World unit.

Definition notify (type : NotifyType) (message : Message) : M unit :=
  Eff.modify (emit (Notify type message)).

Definition location_assign (url : JSString) : M unit :=
  Eff.modify (emit (LocationAssign url)).

Definition setIsCreating (b : bool) : M unit :=
  Eff.modify (update_ui (fun u =>
    {| isCreating := b; newWorkspaceName := newWorkspaceName u;
       loading := loading u; isDeleting := isDeleting u;
       workspaceToDelete := workspaceToDelete u |})).

Definition setNewWorkspaceName (s : JSString) : M unit :=
  Eff.modify (update_ui (fun u =>
    {| isCreating := isCreating u; newWorkspaceName := s;
       loading := loading u; isDeleting := isDeleting u;
       workspaceToDelete := workspaceToDelete u |})).

Definition setLoading (b : bool) : M unit :=
  Eff.modify (update_ui (fun u =>
    {| isCreating := isCreating u; newWorkspaceName := newWorkspaceName u;
       loading := b; isDeleting := isDeleting u;
       workspaceToDelete := workspaceToDelete u |})).

Definition setIsDeleting (b : bool) : M unit :=
  Eff.modify (update_ui (fun u =>
    {| isCreating := isCreating u; newWorkspaceName := newWorkspaceName u;
       loading := loading u; isDeleting := b;
       workspaceToDelete := workspaceToDelete u |})).

Definition setWorkspaceToDelete (x : option WorkspaceRef) : M unit :=
  Eff.modify (update_ui (fun u =>
    {| isCreating := isCreating u; newWorkspaceName := newWorkspaceName u;
       loading := loading u; isDeleting := isDeleting u;
       workspaceToDelete := x |})).

(** [await] of a remote call: its payload, or its rejection raised. *)
Definition await_outcome {A} (o : Outcome A) : M A :=
  match o with
  | Resolves a => Eff.ret a
  | Rejects r => Eff.throw (Rejected r)
  end.

Definition switchWorkspace (url : string) (tenant_id : JSString) : M unit :=
  Eff.modify (emit (CallSwitchWorkspace url tenant_id)) ;;
  await_outcome (switchWorkspace_answer services tenant_id).

Definition createWorkspace (url : string) (name : JSString) : M CreateRst :=
  Eff.modify (emit (CallCreateWorkspace url name)) ;;
  await_outcome (createWorkspace_answer services name).

Definition deleteWorkspace (url : string) (workspace_id : JSString) : M unit :=
  Eff.modify (emit (CallDeleteWorkspace url workspace_id)) ;;
  await_outcome (deleteWorkspace_answer services workspace_id).

(** [await readJsonFromStream(stream)]: the decoder runs on its argument
    and touches nothing else. *)
Definition await_readJsonFromStream (stream : option ReadableStream)
  : M (ReadStream.DecodedBody JSNumber) :=
  fun w =>
    match ReadStream.readJsonFromStream (R := Empty_set) stream with
    | (Normal d, _) => (Normal d, w)
    | (Return r, _) => match r with end
    | (Throw e, _) => (Throw e, w)
    end.

(** [workspaces.find(v => v.current)] *)
Definition currentWorkspace : option Workspace := find current workspaces.

(** [currentWorkspace?.id === tenant_id] *)
Definition is_current_id (tenant_id : JSString) : bool :=
  match currentWorkspace with
  | Some w => jsstr_eqb (id w) tenant_id
  | None => false
  end.

Definition handleSwitchWorkspace (tenant_id : JSString) : M unit :=
  Eff.fn_void (
    Eff.try_catch
      ((if is_current_id tenant_id then Eff.return_ tt else Eff.ret tt) ;;
       switchWorkspace "/workspaces/switch" tenant_id ;;
       notify success (t "common.actionMsg.modifiedSuccessfully") ;;
       location_assign (location_origin ++ basePath))
      (fun _ => notify error (t "common.provider.saveFailed"))).

(** The handler reads [newWorkspaceName] from the render it was created
    in; it is the argument here. *)
Definition handleCreateWorkspace (newWorkspaceName : JSString) : M unit :=
  Eff.fn_void (
    (if negb (truthy_string (trim newWorkspaceName)) then
       notify error (msg_plus (t "common.userProfile.workspace")
                              (t "common.actionMsg.nameRequired")) ;;
       Eff.return_ tt
     else Eff.ret tt) ;;
    Eff.try_finally
      (Eff.try_catch
         (setLoading true ;;
          (* [let createWorkSpaceRst = { id: '' }], assigned by the inner
             [try]; its [catch] never completes normally *)
          createWorkSpaceRst <-
            Eff.try_catch
              (createWorkspace "/workspaces/create" (trim newWorkspaceName))
              (fun error_ =>
                 r <- await_readJsonFromStream (body_of error_) ;;
                 let err := ReadStream.error r in
                 let data := ReadStream.data r in
                 (match err with
                  | None =>
                      let code :=
                        get_code (if truthy truthy_number data then data
                                  else JObject []) in
                      if strict_eq_lit code "exceed_max_workspaces" then
                        notify error (t "common.actionMsg.createFailedExceed")
                      else Eff.ret tt
                  | Some _ => Eff.ret tt
                  end) ;;
                 Eff.return_ tt) ;;
          notify success (t "common.actionMsg.createdSuccessfully") ;;
          switchWorkspace "/workspaces/switch" (rst_id createWorkSpaceRst) ;;
          location_assign location_origin)
         (fun _ => notify error (t "common.actionMsg.createFailed")))
      (setLoading false ;;
       setIsCreating false ;;
       setNewWorkspaceName [])).

(** The handler reads [workspaceToDelete] from the render it was created
    in; it is the argument here. *)
Definition handleDeleteWorkspace (workspaceToDelete : option WorkspaceRef)
  : M unit :=
  Eff.fn_void (
    match workspaceToDelete with
    | None => Eff.return_ tt
    | Some wd =>
        Eff.try_finally
          (Eff.try_catch
             (setLoading true ;;
              deleteWorkspace "/workspaces/delete" (ref_id wd) ;;
              notify success (t "common.actionMsg.deletedSuccessfully") ;;
              location_assign location_origin)
             (fun _ => notify error (t "common.actionMsg.deleteFailed")))
          (setLoading false ;;
           setIsDeleting false ;;
           setWorkspaceToDelete None)
    end).

Definition showDeleteConfirm (workspace : WorkspaceRef) : M unit :=
  Eff.fn_void (
    setWorkspaceToDelete (Some workspace) ;;
    setIsDeleting true).

End Component.

(** Running a handler from the state [u], nothing having happened yet. *)
Definition run {A} (m : Eff.M World unit A) (u : UIState)
  : Completion unit A * World :=
  m {| ui := u; events := [] |}.

(** Projections of a trace. *)
Definition is_remote_call (e : Event) : bool :=
  match e with
  | CallSwitchWorkspace _ _ | CallCreateWorkspace _ _
  | CallDeleteWorkspace _ _ => true
  | _ => false
  end.

Definition is_create_call (e : Event) : bool :=
  match e with CallCreateWorkspace _ _ => true | _ => false end.

Definition is_notification (e : Event) : bool :=
  match e with Notify _ _ => true | _ => false end.

Definition is_navigation (e : Event) : bool :=
  match e with LocationAssign _ => true | _ => false end.

Definition remote_calls (l : list Event) := filter is_remote_call l.
Definition create_calls (l : list Event) := filter is_create_call l.
Definition notifications (l : list Event) := filter is_notification l.
Definition navigations (l : list Event) := filter is_navigation l.

(** The state a create or a delete leaves in its [finally]. *)
Definition after_create (u : UIState) : UIState :=
  {| isCreating := false; newWorkspaceName := [];
     loading := false; isDeleting := isDeleting u;
     workspaceToDelete := workspaceToDelete u |}.

Definition after_delete (u : UIState) : UIState :=
  {| isCreating := isCreating u; newWorkspaceName := newWorkspaceName u;
     loading := false; isDeleting := false;
     workspaceToDelete := None |}.

(** The notifications of the source, by name. *)
Definition name_required : Event :=
  Notify error (msg_plus (t "common.userProfile.workspace")
                         (t "common.actionMsg.nameRequired")).
Definition create_failed_exceed : Event :=
  Notify error (t "common.actionMsg.createFailedExceed").
Definition create_failed : Event :=
  Notify error (t "common.actionMsg.createFailed").
Definition created_successfully : Event :=
  Notify success (t "common.actionMsg.createdSuccessfully").
Definition deleted_successfully : Event :=
  Notify success (t "common.actionMsg.deletedSuccessfully").

End WorkplaceSelector.

(* ================================================================= *)
(** ** A reference platform *)

(** An executable platform on which the code can be run: a JSON reader
    and writer for the grammar of ECMA-404, and UTF-8 coding after the
    WHATWG Encoding standard.  A number is kept as its literal: nothing
    in the code under study computes with numbers. *)
Module Ref.

Local Open Scope N_scope.

Definition Num := JSString.
Definition Value := JSONValue Num.

Definition is_ws (c : N) : bool :=
  (c =? 32) || (c =? 9) || (c =? 10) || (c =? 13).

Fixpoint skip_ws (s : JSString) : JSString :=
  match s with
  | c :: s' => if is_ws c then skip_ws s' else s
  | [] => []
  end.

Definition is_digit (c : N) : bool := (48 <=? c) && (c <=? 57).

(** The longest prefix of digits, and what follows it. *)
Fixpoint take_digits (s : JSString) : JSString * JSString :=
  match s with
  | c :: s' =>
      if is_digit c then let (ds, r) := take_digits s' in (c :: ds, r)
      else ([], s)
  | [] => ([], [])
  end.

(** [exp] of the number grammar, after the integer and fraction [tok]. *)
Definition number_exp (tok s : JSString) : option (JSString * JSString) :=
  match s with
  | e :: s1 =>
      if (e =? 101) || (e =? 69) then
        let (sg, s2) :=
          match s1 with
          | c :: s2 => if (c =? 43) || (c =? 45) then ([c], s2) else ([], s1)
          | [] => ([], s1)
          end in
        match take_digits s2 with
        | ([], _) => None
        | (ds, s3) => Some (tok ++ [e] ++ sg ++ ds, s3)
        end
      else Some (tok, s)
  | [] => Some (tok, s)
  end.

(** [frac] of the number grammar, after the integer [tok]. *)
Definition number_frac (tok s : JSString) : option (JSString * JSString) :=
  match s with
  | c :: s1 =>
      if c =? 46 then
        match take_digits s1 with
        | ([], _) => None
        | (ds, s2) => number_exp (tok ++ [c] ++ ds) s2
        end
      else number_exp tok s
  | [] => Some (tok, s)
  end.

(** A number literal at the head of [s], and what follows it. *)
Definition parse_number (s : JSString) : option (JSString * JSString) :=
  let (sg, s1) :=
    match s with
    | c :: s1 => if c =? 45 then ([c], s1) else ([], s)
    | [] => ([], s)
    end in
  match s1 with
  | c :: s2 =>
      if c =? 48 then number_frac (sg ++ [c]) s2
      else if is_digit c then
        let (ds, s3) := take_digits s1 in number_frac (sg ++ ds) s3
      else None
  | [] => None
  end.

Definition hex_val (c : N) : option N :=
  if is_digit c then Some (c - 48)
  else if (97 <=? c) && (c <=? 102) then Some (c - 87)
  else if (65 <=? c) && (c <=? 70) then Some (c - 55)
  else None.

Definition hex4 (a b c d : N) : option N :=
  match hex_val a, hex_val b, hex_val c, hex_val d with
  | Some x, Some y, Some z, Some w => Some (((x * 16 + y) * 16 + z) * 16 + w)
  | _, _, _, _ => None
  end.

(** The single-character escapes *)
Definition unescape (e : N) : option N :=
  if (e =? 34) || (e =? 92) || (e =? 47) then Some e
  else if e =? 98 then Some 8
  else if e =? 102 then Some 12
  else if e =? 110 then Some 10
  else if e =? 114 then Some 13
  else if e =? 116 then Some 9
  else None.

(** A string, its opening quote already read; [acc] is what was read of
    it so far, reversed. *)
Fixpoint parse_string_body (s acc : JSString) : option (JSString * JSString) :=
  match s with
  | [] => None
  | c :: r =>
      if c =? 34 then Some (rev acc, r)
      else if c =? 92 then
        match r with
        | [] => None
        | e :: r1 =>
            if e =? 117 then
              match r1 with
              | h1 :: h2 :: h3 :: h4 :: r2 =>
                  match hex4 h1 h2 h3 h4 with
                  | Some u => parse_string_body r2 (u :: acc)
                  | None => None
                  end
              | _ => None
              end
            else
              match unescape e with
              | Some u => parse_string_body r1 (u :: acc)
              | None => None
              end
        end
      else if c <? 32 then None
      else parse_string_body r (c :: acc)
  end.

Fixpoint starts_with (p s : JSString) : option JSString :=
  match p, s with
  | [], _ => Some s
  | x :: p', y :: s' => if x =? y then starts_with p' s' else None
  | _ :: _, [] => None
  end.

(** Defining a property: a later duplicate replaces the value and keeps
    the place of the first. *)
Fixpoint set_field {A} (k : JSString) (v : A) (fs : list (JSString * A))
  : list (JSString * A) :=
  match fs with
  | [] => [(k, v)]
  | (k', v') :: fs' =>
      if jsstr_eqb k k' then (k', v) :: fs' else (k', v') :: set_field k v fs'
  end.

Fixpoint parse_value (fuel : nat) (s : JSString) {struct fuel}
  : option (Value * JSString) :=
  match fuel with
  | O => None
  | S fuel' =>
      match skip_ws s with
      | [] => None
      | c :: r =>
          if c =? 123 then
            match skip_ws r with
            | c2 :: r2 =>
                if c2 =? 125 then Some (JObject [], r2)
                else parse_members fuel' r []
            | [] => None
            end
          else if c =? 91 then
            match skip_ws r with
            | c2 :: r2 =>
                if c2 =? 93 then Some (JArray [], r2)
                else parse_elements fuel' r []
            | [] => None
            end
          else if c =? 34 then
            match parse_string_body r [] with
            | Some (str, r') => Some (JString str, r')
            | None => None
            end
          else
            match starts_with (lit "true") (c :: r) with
            | Some r' => Some (JBool true, r')
            | None =>
            match starts_with (lit "false") (c :: r) with
            | Some r' => Some (JBool false, r')
            | None =>
            match starts_with (lit "null") (c :: r) with
            | Some r' => Some (JNull, r')
            | None =>
            match parse_number (c :: r) with
            | Some (tok, r') => Some (JNumber tok, r')
            | None => None
            end end end end
      end
  end
with parse_elements (fuel : nat) (s : JSString) (acc : list Value)
  {struct fuel} : option (Value * JSString) :=
  match fuel with
  | O => None
  | S fuel' =>
      match parse_value fuel' s with
      | None => None
      | Some (v, r) =>
          match skip_ws r with
          | c :: r' =>
              if c =? 44 then parse_elements fuel' r' (v :: acc)
              else if c =? 93 then Some (JArray (rev (v :: acc)), r')
              else None
          | [] => None
          end
      end
  end
with parse_members (fuel : nat) (s : JSString)
  (acc : list (JSString * Value)) {struct fuel}
  : option (Value * JSString) :=
  match fuel with
  | O => None
  | S fuel' =>
      match skip_ws s with
      | c :: r =>
          if c =? 34 then
            match parse_string_body r [] with
            | Some (k, r1) =>
                match skip_ws r1 with
                | c1 :: r2 =>
                    if c1 =? 58 then
                      match parse_value fuel' r2 with
                      | Some (v, r3) =>
                          match skip_ws r3 with
                          | c3 :: r4 =>
                              if c3 =? 44 then
                                parse_members fuel' r4 (set_field k v acc)
                              else if c3 =? 125 then
                                Some (JObject (set_field k v acc), r4)
                              else None
                          | [] => None
                          end
                      | None => None
                      end
                    else None
                | [] => None
                end
            | None => None
            end
          else None
      | [] => None
      end
  end.

(** [JSON.parse]: one value, with white space around it and nothing
    else. *)
Definition parse (s : JSString) : option Value :=
  match parse_value (2 * List.length s + 2)%nat s with
  | Some (v, r) => match skip_ws r with [] => Some v | _ => None end
  | None => None
  end.

Definition hex_digit (d : N) : N := if d <? 10 then 48 + d else 87 + d.

(** [\uXXXX], in lower case *)
Definition escape_unit (c : N) : JSString :=
  [92; 117; hex_digit (c / 4096 mod 16); hex_digit (c / 256 mod 16);
   hex_digit (c / 16 mod 16); hex_digit (c mod 16)].

Definition is_high_surrogate (c : N) : bool := (55296 <=? c) && (c <=? 56319).
Definition is_low_surrogate (c : N) : bool := (56320 <=? c) && (c <=? 57343).

(** The inside of a quoted string, as [JSON.stringify] writes it. *)
Fixpoint quote_body (s : JSString) : JSString :=
  match s with
  | [] => []
  | c :: r =>
      if c =? 8 then 92 :: 98 :: quote_body r
      else if c =? 9 then 92 :: 116 :: quote_body r
      else if c =? 10 then 92 :: 110 :: quote_body r
      else if c =? 12 then 92 :: 102 :: quote_body r
      else if c =? 13 then 92 :: 114 :: quote_body r
      else if c =? 34 then 92 :: 34 :: quote_body r
      else if c =? 92 then 92 :: 92 :: quote_body r
      else if c <? 32 then escape_unit c ++ quote_body r
      else if is_high_surrogate c then
        match r with
        | d :: r' =>
            if is_low_surrogate d then c :: d :: quote_body r'
            else escape_unit c ++ quote_body r
        | [] => escape_unit c
        end
      else if is_low_surrogate c then escape_unit c ++ quote_body r
      else c :: quote_body r
  end.

Definition quote (s : JSString) : JSString := [34] ++ quote_body s ++ [34].

Fixpoint join (sep : JSString) (l : list JSString) : JSString :=
  match l with
  | [] => []
  | [x] => x
  | x :: l' => x ++ sep ++ join sep l'
  end.

(** [JSON.stringify] without indentation *)
Fixpoint stringify (v : Value) : JSString :=
  match v with
  | JNull => lit "null"
  | JBool true => lit "true"
  | JBool false => lit "false"
  | JNumber tok => tok
  | JString s => quote s
  | JArray items => [91] ++ join [44] (map stringify items) ++ [93]
  | JObject fields =>
      [123]
      ++ join [44] (map (fun kv => quote (fst kv) ++ [58] ++ stringify (snd kv))
                        fields)
      ++ [125]
  end.

(** A number literal is truthy when its significand has a digit other
    than 0. *)
Fixpoint truthy_literal (tok : JSString) : bool :=
  match tok with
  | [] => false
  | c :: r =>
      if (c =? 101) || (c =? 69) then false
      else if (49 <=? c) && (c <=? 57) then true
      else truthy_literal r
  end.

(** *** UTF-8 *)

(** The state of the UTF-8 decoder: the code point being assembled, the
    number of continuation bytes still needed, and the bounds the next
    byte has to respect. *)
Record Utf8State := {
  code_point : N;
  bytes_needed : N;
  lower_boundary : N;
  upper_boundary : N
}.

Definition utf8_init : Utf8State :=
  {| code_point := 0; bytes_needed := 0;
     lower_boundary := 128; upper_boundary := 191 |}.

(** A byte read when no sequence is open.  The payload bits of a byte
    are taken by subtraction: within the range tested it is the same as
    masking. *)
Definition utf8_lead (b : N) : list N * Utf8State :=
  if b <=? 127 then ([b], utf8_init)
  else if (194 <=? b) && (b <=? 223) then
    ([], {| code_point := b - 192; bytes_needed := 1;
            lower_boundary := 128; upper_boundary := 191 |})
  else if (224 <=? b) && (b <=? 239) then
    ([], {| code_point := b - 224; bytes_needed := 2;
            lower_boundary := if b =? 224 then 160 else 128;
            upper_boundary := if b =? 237 then 159 else 191 |})
  else if (240 <=? b) && (b <=? 244) then
    ([], {| code_point := b - 240; bytes_needed := 3;
            lower_boundary := if b =? 240 then 144 else 128;
            upper_boundary := if b =? 244 then 143 else 191 |})
  else ([65533], utf8_init).

(** One byte: the code points it completes and the next state.  A byte
    that cannot continue the open sequence closes it with U+FFFD and is
    read again as a lead byte. *)
Definition utf8_step (st : Utf8State) (b : N) : list N * Utf8State :=
  if bytes_needed st =? 0 then utf8_lead b
  else if (lower_boundary st <=? b) && (b <=? upper_boundary st) then
    let cp := code_point st * 64 + (b - 128) in
    if bytes_needed st =? 1 then ([cp], utf8_init)
    else ([], {| code_point := cp; bytes_needed := bytes_needed st - 1;
                 lower_boundary := 128; upper_boundary := 191 |})
  else let (out, st') := utf8_lead b in (65533 :: out, st').

Fixpoint utf8_decode_from (st : Utf8State) (bs : list N) : list N :=
  match bs with
  | [] => if bytes_needed st =? 0 then [] else [65533]
  | b :: bs' =>
      let (out, st') := utf8_step st b in out ++ utf8_decode_from st' bs'
  end.

Definition utf16_of_code_point (c : N) : JSString :=
  if c <? 65536 then [c]
  else [55296 + (c - 65536) / 1024; 56320 + (c - 65536) mod 1024].

Definition strip_bom (cps : list N) : list N :=
  match cps with
  | c :: r => if c =? 65279 then r else cps
  | [] => []
  end.

(** [new TextDecoder().decode(value)]: UTF-8, not fatal, a leading byte
    order mark dropped; the empty string for [undefined]. *)
Definition decode (value : option Chunk) : JSString :=
  match value with
  | None => []
  | Some bytes =>
      flat_map utf16_of_code_point
        (strip_bom (utf8_decode_from utf8_init (map Byte.to_N bytes)))
  end.

(** The code points of a string; a surrogate without its pair reads as
    U+FFFD. *)
Fixpoint code_points (s : JSString) : list N :=
  match s with
  | [] => []
  | c :: r =>
      if is_high_surrogate c then
        match r with
        | d :: r' =>
            if is_low_surrogate d then
              (65536 + (c - 55296) * 1024 + (d - 56320)) :: code_points r'
            else 65533 :: code_points r
        | [] => [65533]
        end
      else if is_low_surrogate c then 65533 :: code_points r
      else c :: code_points r
  end.

Definition utf8_of_code_point (c : N) : list N :=
  if c <? 128 then [c]
  else if c <? 2048 then [192 + c / 64; 128 + c mod 64]
  else if c <? 65536 then
    [224 + c / 4096; 128 + c / 64 mod 64; 128 + c mod 64]
  else [240 + c / 262144; 128 + c / 4096 mod 64;
        128 + c / 64 mod 64; 128 + c mod 64].

Definition byte_of_N (n : N) : byte :=
  match Byte.of_N n with
  | Some b => b
  | None => x00
  end.

(** [new TextEncoder().encode(s)] *)
Definition encode (s : JSString) : Chunk :=
  map byte_of_N (flat_map utf8_of_code_point (code_points s)).

Definition platform : Platform :=
  {| JSNumber := Num;
     truthy_number := truthy_literal;
     JSON_parse := parse;
     JSON_stringify := stringify;
     TextDecoder_decode := decode;
     TextEncoder_encode := encode |}.

(** The bytes of an ASCII text *)
Definition bytes (s : string) : Chunk := list_byte_of_string s.

(** *** Notions for the facts about the reference platform *)

(** A character that may follow a value inside a text written by
    [stringify]. *)
Definition delimiter (c : N) : Prop := c = 44 \/ c = 93 \/ c = 125.

(** The size of a value, a bound on the fuel the reader needs for it. *)
Fixpoint size (v : Value) : nat :=
  match v with
  | JArray items => S (fold_right (fun x n => S (size x + n)) 0%nat items)
  | JObject fields =>
      S (fold_right (fun kv n => S (size (snd kv) + n)) 0%nat fields)
  | _ => 1%nat
  end.

(** Every element is a 16-bit code unit. *)
Definition code_units (s : JSString) : Prop := Forall (fun c => c < 65536) s.

(** The values the reader can produce: numbers are number literals,
    strings are made of code units, an object has no key twice. *)
Inductive well_formed : Value -> Prop :=
| wf_null : well_formed JNull
| wf_bool (b : bool) : well_formed (JBool b)
| wf_number (tok : JSString) :
    parse_number tok = Some (tok, []) -> well_formed (JNumber tok)
| wf_string (s : JSString) : code_units s -> well_formed (JString s)
| wf_array (items : list Value) :
    Forall well_formed items -> well_formed (JArray items)
| wf_object (fields : list (JSString * Value)) :
    NoDup (map fst fields) ->
    Forall (fun kv => code_units (fst kv) /\ well_formed (snd kv)) fields ->
    well_formed (JObject fields).

(** A text that may follow a value: nothing, or a delimiter first. *)
Definition delimited (rest : JSString) : Prop :=
  match rest with
  | [] => True
  | c :: _ => delimiter c
  end.

(** A member of an object, as [stringify] writes it. *)
Definition member_text (kv : JSString * Value) : JSString :=
  quote (fst kv) ++ [58] ++ stringify (snd kv).

(** What a text written by [stringify] starts with. *)
Definition value_start (c : N) : Prop :=
  is_ws c = false /\ c <> 93 /\ c <> 125 /\ c <> 65279 /\ c < 128.

(** The statement proved of each value, by induction. *)
Definition reads_back (v : Value) : Prop :=
  forall fuel rest,
    (size v <= fuel)%nat -> delimited rest ->
    parse_value fuel (stringify v ++ rest) = Some (v, rest).

(** The fuel for the elements of an array, and for the members of an
    object. *)
Definition items_size (items : list Value) : nat :=
  fold_right (fun x n => S (size x + n)) 0%nat items.

Definition fields_size (fields : list (JSString * Value)) : nat :=
  fold_right (fun kv n => S (size (snd kv) + n)) 0%nat fields.

(** The length of texts joined by a separator of one character, plus
    one. *)
Definition texts_length (l : list JSString) : nat :=
  fold_right (fun y n => S (List.length y + n)) 0%nat l.

Definition is_surrogate (c : N) : bool :=
  is_high_surrogate c || is_low_surrogate c.

(** A Unicode scalar value *)
Definition scalar (c : N) : Prop := c < 1114112 /\ is_surrogate c = false.

(** A string where every surrogate is half of a pair *)
Inductive paired : JSString -> Prop :=
| paired_nil : paired []
| paired_unit (c : N) (s : JSString) :
    c < 65536 -> is_surrogate c = false -> paired s -> paired (c :: s)
| paired_pair (h l : N) (s : JSString) :
    is_high_surrogate h = true -> is_low_surrogate l = true ->
    paired s -> paired (h :: l :: s).

(** A text of ASCII characters *)
Definition ascii_text (s : JSString) : Prop := Forall (fun c => c < 128) s.

End Ref.

(* ================================================================= *)
(** ** Scenarios *)

(** Concrete inputs, on the reference platform, at which the statements
    below are instantiated. *)
Module Scenario.
Import WorkplaceSelector.

Definition origin : JSString := lit "https://cloud.example.com".
Definition base : JSString := lit "/app".

Definition u0 : UIState :=
  {| isCreating := true; newWorkspaceName := lit " team ";
     loading := false; isDeleting := true;
     workspaceToDelete :=
       Some {| ref_id := lit "w1"; ref_name := lit "Alpha" |} |}.

Definition alpha : Workspace :=
  {| id := lit "w1"; name := lit "Alpha"; current := false;
     role := lit "owner"; plan := lit "sandbox" |}.

Definition beta : Workspace :=
  {| id := lit "w2"; name := lit "Beta"; current := true;
     role := lit "owner"; plan := lit "team" |}.

Definition workspaces : list Workspace := [alpha; beta].

(** A value with every kind of node *)
Definition sample_value : Ref.Value :=
  JObject
    [(lit "code", JString (lit "exceed_max_workspaces"));
     (lit "status", JNumber (lit "400"));
     (lit "tags", JArray [JBool true; JNull; JNumber (lit "-2.5e+3");
                          JString [104; 233; 10; 34; 8364]%N;
                          JObject []; JArray []])].

Definition exceed_value : Ref.Value :=
  JObject [(lit "code", JString (lit "exceed_max_workspaces"));
           (lit "message", JString (lit "limit reached"))].

Definition other_value : Ref.Value :=
  JObject [(lit "code", JString (lit "other_error"))].

Definition body_of_value (v : Ref.Value) : ReadableStream :=
  fresh_stream [Ref.encode (Ref.stringify v)].

Definition plain_text : string := "Internal Server Error".

(** The body of [exceed_value], delivered in two chunks *)
Definition split_body : ReadableStream :=
  fresh_stream [firstn 20 (Ref.encode (Ref.stringify exceed_value));
                skipn 20 (Ref.encode (Ref.stringify exceed_value))].

(** A back end where everything succeeds; a create answers with the id
    ["w3"]. *)
Definition all_ok : Services :=
  {| switchWorkspace_answer := fun _ => Resolves tt;
     createWorkspace_answer := fun _ => Resolves {| rst_id := lit "w3" |};
     deleteWorkspace_answer := fun _ => Resolves tt |}.

(** A back end where a create is refused with the body [b]. *)
Definition create_refused (b : option ReadableStream) : Services :=
  {| switchWorkspace_answer := fun _ => Resolves tt;
     createWorkspace_answer := fun _ => Rejects {| body := b |};
     deleteWorkspace_answer := fun _ => Resolves tt |}.

(** A back end where a create succeeds and every switch fails. *)
Definition switch_refused : Services :=
  {| switchWorkspace_answer := fun _ => Rejects {| body := None |};
     createWorkspace_answer := fun _ => Resolves {| rst_id := lit "w3" |};
     deleteWorkspace_answer := fun _ => Resolves tt |}.

End Scenario.

(* ================================================================= *)
(** ** workplace-selector/index.tsx: what is rendered *)

(** The handlers are called from the elements the component renders.
    An element that is not rendered cannot be clicked, so what the user
    can do in a state is bounded by what the JSX renders in it; the
    drop-down is taken to be open.  Each callback runs to its end before
    the next one starts, as each handler does above. *)
Module WorkplaceSelectorView.
Import WorkplaceSelector.

(** [!workspace.current && workspace.role === 'owner']: the row of
    [workspace] has a delete icon. *)
Definition delete_icon_rendered (workspace : Workspace) : bool :=
  negb (current workspace) && jsstr_eqb (role workspace) (lit "owner").

(** [{ id: workspace.id, name: workspace.name }] *)
Definition ref_of (workspace : Workspace) : WorkspaceRef :=
  {| ref_id := id workspace; ref_name := name workspace |}.

(** [isCreating && (<Modal ...>)] *)
Definition create_modal_rendered (u : UIState) : bool := isCreating u.

(** [isDeleting && workspaceToDelete && (<Modal ...>)] *)
Definition delete_modal_rendered (u : UIState) : bool :=
  isDeleting u
  && match workspaceToDelete u with Some _ => true | None => false end.

(** [onClick={() => setIsCreating(true)}] of the menu entry *)
Definition openCreateModal : M unit :=
  Eff.fn_void (setIsCreating true).

(** [onChange={e => setNewWorkspaceName(e.target.value)}] *)
Definition onChangeName (value : JSString) : M unit :=
  Eff.fn_void (setNewWorkspaceName value).

(** [onClose] of the create modal and [onClick] of its Cancel button *)
Definition closeCreateModal : M unit :=
  Eff.fn_void (
    setIsCreating false ;;
    setNewWorkspaceName []).

(** [onClose] of the delete modal and [onClick] of its Cancel button *)
Definition closeDeleteModal : M unit :=
  Eff.fn_void (
    setIsDeleting false ;;
    setWorkspaceToDelete None).

(** What the user can do.  A row is named by its place in the list. *)
Inductive Action :=
| ClickWorkspace (row : nat)
| ClickDeleteIcon (row : nat)
| ClickCreateEntry
| ChangeName (value : JSString)
| CloseCreateModal
| ClickCreate
| CloseDeleteModal
| ClickDelete.

(** The five [useState] cells when the component mounts. *)
Definition initial_ui : UIState :=
  {| isCreating := false; newWorkspaceName := [];
     loading := false; isDeleting := false;
     workspaceToDelete := None |}.

Section View.
Context {P : Platform}.
Variable services : Services.
Variable location_origin : JSString.
Variable basePath : JSString.
Variable workspaces : list Workspace.

(** The element of the action is rendered in the state [u].  The delete
    icon of a row is beside the row, not inside it: a click on it is not
    a click on the row. *)
Definition offered (u : UIState) (a : Action) : bool :=
  match a with
  | ClickWorkspace row =>
      match nth_error workspaces row with
      | Some _ => true
      | None => false
      end
  | ClickDeleteIcon row =>
      match nth_error workspaces row with
      | Some workspace => delete_icon_rendered workspace
      | None => false
      end
  | ClickCreateEntry => true
  | ChangeName _ | CloseCreateModal | ClickCreate => create_modal_rendered u
  | CloseDeleteModal | ClickDelete => delete_modal_rendered u
  end.

(** The callback of the action, created by the render of the state [u]:
    it sees [newWorkspaceName] and [workspaceToDelete] as they are in
    [u]. *)
Definition callback (u : UIState) (a : Action) : M unit :=
  match a with
  | ClickWorkspace row =>
      match nth_error workspaces row with
      | Some workspace =>
          handleSwitchWorkspace services location_origin basePath workspaces
            (id workspace)
      | None => Eff.ret tt
      end
  | ClickDeleteIcon row =>
      match nth_error workspaces row with
      | Some workspace => showDeleteConfirm (ref_of workspace)
      | None => Eff.ret tt
      end
  | ClickCreateEntry => openCreateModal
  | ChangeName value => onChangeName value
  | CloseCreateModal => closeCreateModal
  | ClickCreate =>
      handleCreateWorkspace services location_origin (newWorkspaceName u)
  | CloseDeleteModal => closeDeleteModal
  | ClickDelete =>
      handleDeleteWorkspace services location_origin (workspaceToDelete u)
  end.

(** One action on the world [w]. *)
Definition perform (a : Action) (w : World) : World :=
  snd (callback (ui w) a w).

(** A sequence of actions from [w]; [None] when one of them is on an
    element that is not rendered. *)
Fixpoint play (actions : list Action) (w : World) : option World :=
  match actions with
  | [] => Some w
  | a :: rest =>
      if offered (ui w) a then play rest (perform a w) else None
  end.

(** The worlds the user can bring about from the mount. *)
Definition reachable (w : World) : Prop :=
  exists actions,
    play actions {| ui := initial_ui; events := [] |} = Some w.

End View.


(** A name as [trim] leaves it: not empty, and white space neither first
    nor last. *)
Definition trimmed_name (s : JSString) : Prop :=
  s <> [] /\
  (forall c, hd_error s = Some c -> is_js_whitespace c = false) /\
  (forall c, hd_error (rev s) = Some c -> is_js_whitespace c = false).

(** The cells agree with each other when no callback is running. *)
Definition consistent (u : UIState) : Prop :=
  loading u = false /\
  (isDeleting u = true <->
     match workspaceToDelete u with Some _ => True | None => False end) /\
  (isCreating u = false -> newWorkspaceName u = []).

(** Started on a trace [l], a callback does what it does on the empty
    trace, after [l], and completes normally. *)
Definition after_trace (m : M unit) : Prop :=
  forall u l,
    m {| ui := u; events := l |}
    = (Normal tt,
       {| ui := ui (snd (run m u)); events := l ++ events (snd (run m u)) |}).

Definition is_switch_call (e : Event) : bool :=
  match e with CallSwitchWorkspace _ _ => true | _ => false end.

Definition switch_calls (l : list Event) := filter is_switch_call l.

End WorkplaceSelectorView.

(** Concrete sessions of a user, on the reference platform. *)
Module ViewScenario.
Import WorkplaceSelector WorkplaceSelectorView.

(** A back end that refuses every delete. *)
Definition delete_refused : Services :=
  {| switchWorkspace_answer := fun _ => Resolves tt;
     createWorkspace_answer := fun _ => Resolves {| rst_id := lit "w3" |};
     deleteWorkspace_answer := fun _ => Rejects {| body := None |} |}.

(** The user creates a workspace, deletes [alpha], and clicks on it. *)
Definition session : list Action :=
  [ClickCreateEntry; ChangeName (lit " team "); ClickCreate;
   ClickDeleteIcon 0; ClickDelete; ClickWorkspace 0].

Definition mount : World := {| ui := initial_ui; events := [] |}.

(** The world the session leaves *)
Definition session_world : World :=
  fold_left
    (fun w a =>
       perform (P := Ref.platform) Scenario.all_ok Scenario.origin
         Scenario.base Scenario.workspaces a w)
    session mount.

End ViewScenario.

(* ================================================================= *)
(** ** Specification-side notions *)

(** What the decoder makes of a body text, by the two cases of the
    specification: the parsed value and no error, or the text itself and
    the parse error. *)
Definition decoded_text {P : Platform} (text : JSString)
  : ReadStream.DecodedBody JSNumber :=
  match JSON_parse text with
  | Some v => {| ReadStream.data := v; ReadStream.error := None |}
  | None => {| ReadStream.data := JString text;
               ReadStream.error := Some SyntaxError |}
  end.

(** The decoded value is an object whose [code] is the string [c]. *)
Definition has_code {Num} (v : JSONValue Num) (c : JSString) : Prop :=
  exists fields,
    v = JObject fields /\
    lookup_field (lit "code") fields = Some (JString c).

(** At most one workspace of the list is the current one. *)
Definition at_most_one_current (ws : list WorkplaceSelector.Workspace) : Prop :=
  forall a b,
    In a ws -> In b ws ->
    WorkplaceSelector.current a = true ->
    WorkplaceSelector.current b = true ->
    a = b.

(* ================================================================= *)
(** ** The decoder *)

Section DecoderFacts.
Context {P : Platform}.

Lemma jsstr_eqb_refl (s : JSString) : jsstr_eqb s s = true.
Proof.
  induction s as [|c s IH]; simpl.
  - reflexivity.
  - now rewrite N.eqb_refl, IH.
Qed.

Lemma jsstr_eqb_eq (a b : JSString) : jsstr_eqb a b = true <-> a = b.
Proof.
  split.
  - revert b; induction a as [|x a IH]; intros [|y b]; simpl;
      try discriminate; try reflexivity.
    intros H. apply andb_true_iff in H as [Hx Hab].
    apply N.eqb_eq in Hx. f_equal; auto.
  - intros ->. apply jsstr_eqb_refl.
Qed.

(** [readStream] on a stream no reader holds: the reader is acquired,
    one read is made, and its value is decoded. *)
Lemma readStream_unlocked (R : Type) (q : list Chunk) (e : bool)
      (log : list StreamOp) :
  ReadStream.readStream (R := R)
    (Some {| queue := q; locked := false; errored := e; oplog := log |})
  = if e then
      (Throw StreamError,
       Some {| queue := q; locked := true; errored := true;
               oplog := log ++ [OpGetReader; OpRead] |})
    else
      (Normal (TextDecoder_decode (hd_error q)),
       Some {| queue := tl q; locked := true; errored := false;
               oplog := log ++ [OpGetReader; OpRead] |}).
Proof.
  unfold ReadStream.readStream, Eff.fn, Eff.bind, ReadStream.getReader,
    ReadStream.read, ReadStream.log_op, Eff.return_; simpl.
  rewrite <- app_assoc; simpl.
  destruct e; [reflexivity|].
  destruct q; reflexivity.
Qed.

(** On a locked stream, or on no stream, the reader cannot be had. *)
Lemma readStream_locked (R : Type) (s : ReadableStream) :
  locked s = true ->
  ReadStream.readStream (R := R) (Some s)
  = (Throw TypeError, Some (ReadStream.log_op OpGetReader s)).
Proof.
  intros H.
  unfold ReadStream.readStream, Eff.fn, Eff.bind, ReadStream.getReader.
  now rewrite H.
Qed.

(** The whole decoder on a readable stream no reader holds. *)
Lemma readJsonFromStream_unlocked (R : Type) (q : list Chunk)
      (log : list StreamOp) :
  ReadStream.readJsonFromStream (R := R)
    (Some {| queue := q; locked := false; errored := false; oplog := log |})
  = (Normal (decoded_text (TextDecoder_decode (hd_error q))),
     Some {| queue := tl q; locked := true; errored := false;
             oplog := log ++ [OpGetReader; OpRead] |}).
Proof.
  unfold ReadStream.readJsonFromStream, Eff.fn at 1, Eff.bind at 1.
  rewrite readStream_unlocked.
  unfold Eff.try_catch, Eff.bind, ReadStream.JSON_parse_m, decoded_text.
  destruct (JSON_parse (TextDecoder_decode (hd_error q))); reflexivity.
Qed.

(** C1. Round trip: when the body is delivered as one chunk, the UTF-8
    encoding of the JSON text of a value [v], the decoder returns
    [{ data: v, error: null }].  That text is what [JSON.stringify]
    writes; that [JSON.parse] reads it back and [TextDecoder] undoes
    [TextEncoder] on it is the platform's part. *)
Theorem readJsonFromStream_roundtrip (v : JSONValue JSNumber) :
  JSON_parse (JSON_stringify v) = Some v ->
  TextDecoder_decode (Some (TextEncoder_encode (JSON_stringify v)))
    = JSON_stringify v ->
  fst (ReadStream.readJsonFromStream (R := Empty_set)
         (Some (fresh_stream [TextEncoder_encode (JSON_stringify v)])))
  = Normal {| ReadStream.data := v; ReadStream.error := None |}.
Proof.
  intros Hparse Hutf8.
  unfold fresh_stream. rewrite readJsonFromStream_unlocked. simpl.
  unfold decoded_text. now rewrite Hutf8, Hparse.
Qed.

(** C2. A body whose text [s] is not valid JSON: the decoder returns
    (it does not raise) [{ data: s, error: e }] with [e] the exception
    of the parser, hence not [null]. *)
Theorem readJsonFromStream_parse_failure (chunks : list Chunk) (s : JSString) :
  TextDecoder_decode (hd_error chunks) = s ->
  JSON_parse s = None ->
  exists e,
    fst (ReadStream.readJsonFromStream (R := Empty_set)
           (Some (fresh_stream chunks)))
    = Normal {| ReadStream.data := JString s; ReadStream.error := Some e |}.
Proof.
  intros Htext Hparse. exists SyntaxError.
  unfold fresh_stream. rewrite readJsonFromStream_unlocked. simpl.
  unfold decoded_text. now rewrite Htext, Hparse.
Qed.

(** C9. One reader, one read, no loop.  On every stream the decoder
    asks for the reader once and, having it, reads once; of a body that
    comes in several chunks it decodes the first one only, and leaves the
    others in the stream. *)
Theorem readJsonFromStream_reads_one_chunk :
  (forall s : ReadableStream,
      exists s',
        snd (ReadStream.readJsonFromStream (R := Empty_set) (Some s)) = Some s'
        /\ oplog s' = oplog s ++ (if locked s then [OpGetReader]
                                  else [OpGetReader; OpRead]))
  /\
  (forall (c : Chunk) (rest : list Chunk),
      ReadStream.readJsonFromStream (R := Empty_set)
        (Some (fresh_stream (c :: rest)))
      = (Normal (decoded_text (TextDecoder_decode (Some c))),
         Some {| queue := rest; locked := true; errored := false;
                 oplog := [OpGetReader; OpRead] |})
      /\ fst (ReadStream.readJsonFromStream (R := Empty_set)
                (Some (fresh_stream (c :: rest))))
         = fst (ReadStream.readJsonFromStream (R := Empty_set)
                  (Some (fresh_stream [c])))).
Proof.
  split.
  - intros [q [|] e log].
    + eexists; split.
      * unfold ReadStream.readJsonFromStream, Eff.fn at 1, Eff.bind at 1.
        rewrite readStream_locked by reflexivity. reflexivity.
      * reflexivity.
    + destruct e.
      * eexists; split.
        -- unfold ReadStream.readJsonFromStream, Eff.fn at 1, Eff.bind at 1.
           rewrite readStream_unlocked. reflexivity.
        -- reflexivity.
      * rewrite readJsonFromStream_unlocked. eexists; split; reflexivity.
  - intros c rest. unfold fresh_stream.
    rewrite !readJsonFromStream_unlocked. split; reflexivity.
Qed.

End DecoderFacts.

(** C1 at [Scenario.sample_value] on the reference platform. *)
Lemma readJsonFromStream_roundtrip_witness :
  fst (ReadStream.readJsonFromStream (P := Ref.platform) (R := Empty_set)
         (Some (Scenario.body_of_value Scenario.sample_value)))
  = Normal (@ReadStream.Build_DecodedBody Ref.Num
              Scenario.sample_value None).
Proof.
  apply (@readJsonFromStream_roundtrip Ref.platform Scenario.sample_value).
  - vm_compute. reflexivity.
  - vm_compute. reflexivity.
Defined.

(** C2 at a body that is plain text. *)
Lemma readJsonFromStream_parse_failure_witness :
  exists e,
    fst (ReadStream.readJsonFromStream (P := Ref.platform) (R := Empty_set)
           (Some (fresh_stream [Ref.bytes Scenario.plain_text])))
    = Normal (@ReadStream.Build_DecodedBody Ref.Num
                (JString (lit Scenario.plain_text)) (Some e)).
Proof.
  apply (@readJsonFromStream_parse_failure Ref.platform
           [Ref.bytes Scenario.plain_text] (lit Scenario.plain_text)).
  - vm_compute. reflexivity.
  - vm_compute. reflexivity.
Defined.

(** A body cut in two chunks: the first alone is read, it is not JSON,
    and the second stays in the stream. *)
Example readJsonFromStream_split_body :
  ReadStream.readJsonFromStream (P := Ref.platform) (R := Empty_set)
    (Some Scenario.split_body)
  = (Normal (@ReadStream.Build_DecodedBody Ref.Num
               (JString (firstn 20 (Ref.stringify Scenario.exceed_value)))
               (Some SyntaxError)),
     Some {| queue := [skipn 20 (Ref.encode
                                   (Ref.stringify Scenario.exceed_value))];
             locked := true; errored := false;
             oplog := [OpGetReader; OpRead] |}).
Proof. vm_compute. reflexivity. Qed.

(* ================================================================= *)
(** ** The handlers *)

Module WorkplaceSelectorFacts.
Import WorkplaceSelector.

(** Unfolding a handler down to the state transformer it denotes. *)
Ltac unfold_handler :=
  unfold run, handleSwitchWorkspace, handleCreateWorkspace,
    handleDeleteWorkspace, switchWorkspace, createWorkspace, deleteWorkspace,
    notify, location_assign, setLoading, setIsCreating, setNewWorkspaceName,
    setIsDeleting, setWorkspaceToDelete, await_outcome,
    Eff.fn_void, Eff.try_finally, Eff.try_catch, Eff.bind, Eff.ret,
    Eff.return_, Eff.throw, Eff.modify, emit, update_ui;
  simpl.

Section HandlerFacts.
Context {P : Platform}.
Variable services : Services.
Variable location_origin : JSString.
Variable basePath : JSString.

Lemma trim_nonempty_truthy (s : JSString) :
  trim s <> [] -> truthy_string (trim s) = true.
Proof. destruct (trim s); [congruence | reflexivity]. Qed.

(** With one current workspace at most, [currentWorkspace] is it. *)
Lemma currentWorkspace_unique (workspaces : list Workspace) (w : Workspace) :
  at_most_one_current workspaces ->
  In w workspaces -> current w = true ->
  currentWorkspace workspaces = Some w.
Proof.
  intros Huniq Hin Hcur. unfold currentWorkspace.
  destruct (find current workspaces) as [w'|] eqn:Hfind.
  - apply find_some in Hfind as [Hin' Hcur'].
    f_equal. now apply Huniq.
  - exfalso. apply (find_none _ _ Hfind) in Hin. congruence.
Qed.

(** C3. Switching to the workspace that is current already does
    nothing: no remote call, no notification, no navigation, the state
    as it was. *)
Theorem handleSwitchWorkspace_current_noop
        (workspaces : list Workspace) (w : Workspace) (u : UIState) :
  at_most_one_current workspaces ->
  In w workspaces -> current w = true ->
  run (handleSwitchWorkspace services location_origin basePath workspaces
         (id w)) u
  = (Normal tt, {| ui := u; events := [] |}).
Proof.
  intros Huniq Hin Hcur.
  unfold_handler. unfold is_current_id.
  rewrite (currentWorkspace_unique workspaces w Huniq Hin Hcur), jsstr_eqb_refl.
  reflexivity.
Qed.

(** The test of the inner [catch], [(data || {}).code === c], holds
    exactly of the objects whose [code] is the string [c]. *)
Lemma code_test_spec (d : JSONValue JSNumber) (c : string) :
  strict_eq_lit (get_code (if truthy truthy_number d then d else JObject []))
                c = true
  <-> has_code d (lit c).
Proof.
  split.
  - intros H.
    destruct d as [| b | n | s | items | fields];
      try (destruct (truthy truthy_number _); simpl in H; discriminate).
    simpl in H.
    destruct (lookup_field (lit "code") fields) as [[| | | s' | |]|] eqn:Hl;
      simpl in H; try discriminate.
    apply jsstr_eqb_eq in H. subst s'.
    exists fields. split; [reflexivity | exact Hl].
  - intros (fields & -> & Hl). simpl. rewrite Hl. simpl.
    apply jsstr_eqb_refl.
Qed.

(** *** What [handleCreateWorkspace] does, case by case *)

Lemma handleCreateWorkspace_blank (name : JSString) (u : UIState) :
  trim name = [] ->
  run (handleCreateWorkspace services location_origin name) u
  = (Normal tt, {| ui := u; events := [name_required] |}).
Proof.
  intros H. unfold_handler. rewrite H. reflexivity.
Qed.

Lemma handleCreateWorkspace_resolved
      (name : JSString) (u : UIState) (rst : CreateRst) :
  trim name <> [] ->
  createWorkspace_answer services (trim name) = Resolves rst ->
  run (handleCreateWorkspace services location_origin name) u
  = (Normal tt,
     {| ui := after_create u;
        events :=
          [CallCreateWorkspace "/workspaces/create" (trim name);
           created_successfully;
           CallSwitchWorkspace "/workspaces/switch" (rst_id rst)]
          ++ match switchWorkspace_answer services (rst_id rst) with
             | Resolves _ => [LocationAssign location_origin]
             | Rejects _ => [create_failed]
             end |}).
Proof.
  intros Hname Hcreate. unfold_handler.
  rewrite (trim_nonempty_truthy name Hname). simpl.
  rewrite Hcreate. simpl.
  destruct (switchWorkspace_answer services (rst_id rst)); reflexivity.
Qed.

Lemma handleCreateWorkspace_rejected
      (name : JSString) (u : UIState) (r : Rejection) :
  trim name <> [] ->
  createWorkspace_answer services (trim name) = Rejects r ->
  run (handleCreateWorkspace services location_origin name) u
  = (Normal tt,
     {| ui := after_create u;
        events :=
          CallCreateWorkspace "/workspaces/create" (trim name)
          :: match fst (ReadStream.readJsonFromStream (R := Empty_set)
                          (body r)) with
             | Normal d =>
                 match ReadStream.error d with
                 | None =>
                     if strict_eq_lit
                          (get_code
                             (if truthy truthy_number (ReadStream.data d)
                              then ReadStream.data d else JObject []))
                          "exceed_max_workspaces"
                     then [create_failed_exceed] else []
                 | Some _ => []
                 end
             | Return _ => []
             | Throw _ => [create_failed]
             end |}).
Proof.
  intros Hname Hcreate. unfold_handler.
  rewrite (trim_nonempty_truthy name Hname). simpl.
  rewrite Hcreate. simpl.
  unfold await_readJsonFromStream.
  destruct (ReadStream.readJsonFromStream (body r)) as [[d | [] | e] s'];
    simpl; [|reflexivity].
  destruct (ReadStream.error d); [reflexivity|].
  destruct (strict_eq_lit _ _); reflexivity.
Qed.

(** C4. A create that fails, its error body decoded.  With no parse
    error and [code] equal to ["exceed_max_workspaces"], the one
    notification is the "exceeded" error (1); with a parse error, or with
    another code or none, there is no notification (2).  The generic
    "create failed" notification is raised only by an exception that
    leaves the inner [catch] or the rest of the outer [try]: the decoder
    raising, or the switch after a successful create failing (3); it
    never comes together with the "exceeded" one (4). *)
Theorem handleCreateWorkspace_failure_notifications
        (name : JSString) (u : UIState) :
  trim name <> [] ->
  let evs :=
    events (snd (run (handleCreateWorkspace services location_origin name) u))
  in
  (forall r d,
      createWorkspace_answer services (trim name) = Rejects r ->
      fst (ReadStream.readJsonFromStream (R := Empty_set) (body r)) = Normal d ->
      ReadStream.error d = None ->
      has_code (ReadStream.data d) (lit "exceed_max_workspaces") ->
      notifications evs = [create_failed_exceed])
  /\
  (forall r d,
      createWorkspace_answer services (trim name) = Rejects r ->
      fst (ReadStream.readJsonFromStream (R := Empty_set) (body r)) = Normal d ->
      ReadStream.error d <> None
      \/ ~ has_code (ReadStream.data d) (lit "exceed_max_workspaces") ->
      notifications evs = [])
  /\
  (In create_failed evs ->
     (exists r e,
         createWorkspace_answer services (trim name) = Rejects r /\
         fst (ReadStream.readJsonFromStream (R := Empty_set) (body r))
         = Throw e)
     \/
     (exists rst r,
         createWorkspace_answer services (trim name) = Resolves rst /\
         switchWorkspace_answer services (rst_id rst) = Rejects r))
  /\
  ~ (In create_failed_exceed evs /\ In create_failed evs).
Proof.
  intros Hname evs. subst evs.
  destruct (createWorkspace_answer services (trim name)) as [rst | r] eqn:Hc.
  - rewrite (handleCreateWorkspace_resolved name u rst Hname Hc). simpl.
    repeat split; try discriminate.
    + intros Hin. right. exists rst.
      destruct (switchWorkspace_answer services (rst_id rst)) as [|r'].
      * simpl in Hin. repeat (destruct Hin as [Hin | Hin]; try discriminate).
        contradiction.
      * exists r'. split; reflexivity.
    + intros [Hin _].
      destruct (switchWorkspace_answer services (rst_id rst));
        simpl in Hin;
        repeat (destruct Hin as [Hin | Hin]; try discriminate);
        contradiction.
  - rewrite (handleCreateWorkspace_rejected name u r Hname Hc). simpl.
    repeat split.
    + intros r0 d [= <-] Hd Herr Hcode. rewrite Hd, Herr.
      apply code_test_spec in Hcode. rewrite Hcode. reflexivity.
    + intros r0 d [= <-] Hd Hno. rewrite Hd.
      destruct (ReadStream.error d); [reflexivity|].
      destruct Hno as [Hno | Hno]; [congruence|].
      destruct (strict_eq_lit _ _) eqn:Htest; [|reflexivity].
      apply code_test_spec in Htest. contradiction.
    + intros Hin. left. exists r.
      destruct (fst (ReadStream.readJsonFromStream (body r)))
        as [d | [] | e].
      * exfalso. destruct Hin as [Hin | Hin]; [discriminate|].
        destruct (ReadStream.error d); [contradiction|].
        destruct (strict_eq_lit _ _);
          repeat (destruct Hin as [Hin | Hin]; try discriminate);
          contradiction.
      * exists e. split; reflexivity.
    + intros [Hex Hgen].
      destruct (fst (ReadStream.readJsonFromStream (body r)))
        as [d | [] | e].
      * destruct Hgen as [Hgen | Hgen]; [discriminate|].
        destruct (ReadStream.error d); [contradiction|].
        destruct (strict_eq_lit _ _);
          repeat (destruct Hgen as [Hgen | Hgen]; try discriminate);
          contradiction.
      * repeat (destruct Hex as [Hex | Hex]; try discriminate).
        contradiction.
Qed.

(** C5. A name that is blank once trimmed: no remote call, and the
    validation error as the one notification.  Any other name: one
    create call, with the trimmed name as its body. *)
Theorem handleCreateWorkspace_validates_name (name : JSString) (u : UIState) :
  let evs :=
    events (snd (run (handleCreateWorkspace services location_origin name) u))
  in
  (trim name = [] ->
     remote_calls evs = [] /\ notifications evs = [name_required])
  /\
  (trim name <> [] ->
     create_calls evs
     = [CallCreateWorkspace "/workspaces/create" (trim name)]).
Proof.
  intros evs; subst evs. split.
  - intros H. rewrite (handleCreateWorkspace_blank name u H).
    split; reflexivity.
  - intros H.
    destruct (createWorkspace_answer services (trim name)) as [rst | r] eqn:Hc.
    + rewrite (handleCreateWorkspace_resolved name u rst H Hc). simpl.
      destruct (switchWorkspace_answer services (rst_id rst)); reflexivity.
    + rewrite (handleCreateWorkspace_rejected name u r H Hc). simpl.
      destruct (fst (ReadStream.readJsonFromStream (body r)))
        as [d | [] | e]; [|reflexivity].
      destruct (ReadStream.error d); [reflexivity|].
      destruct (strict_eq_lit _ _); reflexivity.
Qed.

(** C6. Whatever becomes of a create with a name that is not blank
    (success, failure decoded, exception), the handler completes with
    [loading] false, the creation dialog closed and the draft name
    empty.  The other cells are untouched. *)
Theorem handleCreateWorkspace_finally (name : JSString) (u : UIState) :
  trim name <> [] ->
  let r := run (handleCreateWorkspace services location_origin name) u in
  fst r = Normal tt /\
  loading (ui (snd r)) = false /\
  isCreating (ui (snd r)) = false /\
  newWorkspaceName (ui (snd r)) = [] /\
  ui (snd r) = after_create u.
Proof.
  intros H r; subst r.
  destruct (createWorkspace_answer services (trim name)) as [rst | r] eqn:Hc.
  - rewrite (handleCreateWorkspace_resolved name u rst H Hc).
    repeat split; reflexivity.
  - rewrite (handleCreateWorkspace_rejected name u r H Hc).
    repeat split; reflexivity.
Qed.

(** *** What the other two handlers do *)

Lemma handleSwitchWorkspace_other
      (workspaces : list Workspace) (tenant_id : JSString) (u : UIState) :
  is_current_id workspaces tenant_id = false ->
  run (handleSwitchWorkspace services location_origin basePath workspaces
         tenant_id) u
  = (Normal tt,
     {| ui := u;
        events :=
          CallSwitchWorkspace "/workspaces/switch" tenant_id
          :: match switchWorkspace_answer services tenant_id with
             | Resolves _ =>
                 [Notify success (t "common.actionMsg.modifiedSuccessfully");
                  LocationAssign (location_origin ++ basePath)]
             | Rejects _ => [Notify error (t "common.provider.saveFailed")]
             end |}).
Proof.
  intros H. unfold_handler. rewrite H. simpl.
  destruct (switchWorkspace_answer services tenant_id); reflexivity.
Qed.

Lemma handleDeleteWorkspace_pending (wd : WorkspaceRef) (u : UIState) :
  run (handleDeleteWorkspace services location_origin (Some wd)) u
  = (Normal tt,
     {| ui := after_delete u;
        events :=
          CallDeleteWorkspace "/workspaces/delete" (ref_id wd)
          :: match deleteWorkspace_answer services (ref_id wd) with
             | Resolves _ =>
                 [deleted_successfully; LocationAssign location_origin]
             | Rejects _ => [Notify error (t "common.actionMsg.deleteFailed")]
             end |}).
Proof.
  unfold_handler.
  destruct (deleteWorkspace_answer services (ref_id wd)); reflexivity.
Qed.

(** C7. Where each handler navigates on success: a switch goes to the
    origin followed by the base path; a create (the create and the
    switch that follows it both succeeding) and a confirmed delete go to
    the origin alone. *)
Theorem navigation_asymmetry :
  (forall workspaces tenant_id u,
      is_current_id workspaces tenant_id = false ->
      switchWorkspace_answer services tenant_id = Resolves tt ->
      navigations
        (events (snd (run (handleSwitchWorkspace services location_origin
                             basePath workspaces tenant_id) u)))
      = [LocationAssign (location_origin ++ basePath)])
  /\
  (forall name rst u,
      trim name <> [] ->
      createWorkspace_answer services (trim name) = Resolves rst ->
      switchWorkspace_answer services (rst_id rst) = Resolves tt ->
      navigations
        (events (snd (run (handleCreateWorkspace services location_origin
                             name) u)))
      = [LocationAssign location_origin])
  /\
  (forall wd u,
      deleteWorkspace_answer services (ref_id wd) = Resolves tt ->
      navigations
        (events (snd (run (handleDeleteWorkspace services location_origin
                             (Some wd)) u)))
      = [LocationAssign location_origin]).
Proof.
  repeat split.
  - intros workspaces tenant_id u Hcur Hsw.
    rewrite (handleSwitchWorkspace_other workspaces tenant_id u Hcur), Hsw.
    reflexivity.
  - intros name rst u Hname Hc Hsw.
    rewrite (handleCreateWorkspace_resolved name u rst Hname Hc), Hsw.
    reflexivity.
  - intros wd u Hd.
    rewrite (handleDeleteWorkspace_pending wd u), Hd.
    reflexivity.
Qed.

(** C8. Confirming a delete.  With nothing pending it does nothing.
    With a workspace pending and the remote delete succeeding: the delete
    call, one success notification, navigation to the origin.  With a
    workspace pending, however the call ends: [loading] false, the
    confirmation closed, nothing pending. *)
Theorem handleDeleteWorkspace_spec (u : UIState) :
  run (handleDeleteWorkspace services location_origin None) u
  = (Normal tt, {| ui := u; events := [] |})
  /\
  (forall wd,
      deleteWorkspace_answer services (ref_id wd) = Resolves tt ->
      events (snd (run (handleDeleteWorkspace services location_origin
                          (Some wd)) u))
      = [CallDeleteWorkspace "/workspaces/delete" (ref_id wd);
         deleted_successfully;
         LocationAssign location_origin])
  /\
  (forall wd,
      let r := run (handleDeleteWorkspace services location_origin
                      (Some wd)) u in
      fst r = Normal tt /\
      loading (ui (snd r)) = false /\
      isDeleting (ui (snd r)) = false /\
      workspaceToDelete (ui (snd r)) = None /\
      ui (snd r) = after_delete u).
Proof.
  split; [reflexivity | split].
  - intros wd Hd. rewrite (handleDeleteWorkspace_pending wd u), Hd.
    reflexivity.
  - intros wd r; subst r. rewrite (handleDeleteWorkspace_pending wd u).
    repeat split; reflexivity.
Qed.

(** C10. The create succeeds and the switch that follows it fails: the
    user is told "created successfully" and then "create failed", in
    this order, by the same call of the handler. *)
Theorem handleCreateWorkspace_switch_rejected
        (name : JSString) (u : UIState) (rst : CreateRst) (r : Rejection) :
  trim name <> [] ->
  createWorkspace_answer services (trim name) = Resolves rst ->
  switchWorkspace_answer services (rst_id rst) = Rejects r ->
  let evs :=
    events (snd (run (handleCreateWorkspace services location_origin name) u))
  in
  notifications evs = [created_successfully; create_failed]
  /\ evs = [CallCreateWorkspace "/workspaces/create" (trim name);
            created_successfully;
            CallSwitchWorkspace "/workspaces/switch" (rst_id rst);
            create_failed].
Proof.
  intros Hname Hc Hsw evs; subst evs.
  rewrite (handleCreateWorkspace_resolved name u rst Hname Hc), Hsw.
  split; reflexivity.
Qed.

End HandlerFacts.

(** *** The statements at the scenarios *)

(** C3: switching to [beta], the current workspace. *)
Lemma handleSwitchWorkspace_current_noop_witness :
  run (handleSwitchWorkspace Scenario.all_ok Scenario.origin Scenario.base
         Scenario.workspaces (id Scenario.beta)) Scenario.u0
  = (Normal tt, {| ui := Scenario.u0; events := [] |}).
Proof.
  apply handleSwitchWorkspace_current_noop.
  - intros a b Ha Hb Hca Hcb.
    simpl in Ha, Hb.
    destruct Ha as [<- | [<- | []]]; destruct Hb as [<- | [<- | []]];
      try reflexivity; discriminate.
  - simpl. auto.
  - reflexivity.
Defined.

(** C4: a create refused with [{ code: "exceed_max_workspaces", ... }]. *)
Lemma handleCreateWorkspace_failure_notifications_witness :
  notifications
    (events (snd (run (handleCreateWorkspace (P := Ref.platform)
                         (Scenario.create_refused
                            (Some (Scenario.body_of_value
                                     Scenario.exceed_value)))
                         Scenario.origin (lit " team ")) Scenario.u0)))
  = [create_failed_exceed].
Proof.
  refine (proj1 (@handleCreateWorkspace_failure_notifications Ref.platform
                   _ Scenario.origin (lit " team ") Scenario.u0 _)
                {| body := Some (Scenario.body_of_value
                                   Scenario.exceed_value) |}
                (@ReadStream.Build_DecodedBody Ref.Num
                   Scenario.exceed_value None) _ _ _ _).
  - vm_compute. discriminate.
  - reflexivity.
  - vm_compute. reflexivity.
  - reflexivity.
  - eexists. split; [reflexivity | vm_compute; reflexivity].
Defined.

(** C5: a blank name and a padded one. *)
Lemma handleCreateWorkspace_validates_name_witness :
  (remote_calls
     (events (snd (run (handleCreateWorkspace (P := Ref.platform)
                          Scenario.all_ok Scenario.origin
                          [32; 9; 160; 12288]%N) Scenario.u0))) = []
   /\ notifications
        (events (snd (run (handleCreateWorkspace (P := Ref.platform)
                             Scenario.all_ok Scenario.origin
                             [32; 9; 160; 12288]%N) Scenario.u0)))
      = [name_required])
  /\ create_calls
       (events (snd (run (handleCreateWorkspace (P := Ref.platform)
                            Scenario.all_ok Scenario.origin
                            (lit " team ")) Scenario.u0)))
     = [CallCreateWorkspace "/workspaces/create" (lit "team")].
Proof.
  split.
  - apply (proj1 (@handleCreateWorkspace_validates_name Ref.platform
                    Scenario.all_ok Scenario.origin [32; 9; 160; 12288]%N
                    Scenario.u0)).
    vm_compute. reflexivity.
  - apply (proj2 (@handleCreateWorkspace_validates_name Ref.platform
                    Scenario.all_ok Scenario.origin (lit " team ")
                    Scenario.u0)).
    vm_compute. discriminate.
Defined.

(** C6: a create refused with a body that is not JSON. *)
Lemma handleCreateWorkspace_finally_witness :
  ui (snd (run (handleCreateWorkspace (P := Ref.platform)
                  (Scenario.create_refused
                     (Some (fresh_stream [Ref.bytes Scenario.plain_text])))
                  Scenario.origin (lit " team ")) Scenario.u0))
  = {| isCreating := false; newWorkspaceName := [];
       loading := false; isDeleting := true;
       workspaceToDelete := workspaceToDelete Scenario.u0 |}.
Proof.
  refine (proj2 (proj2 (proj2 (proj2
            (@handleCreateWorkspace_finally Ref.platform _ Scenario.origin
               (lit " team ") Scenario.u0 _))))).
  vm_compute. discriminate.
Defined.

(** C7: the three navigations where everything succeeds. *)
Lemma navigation_asymmetry_witness :
  navigations
    (events (snd (run (handleSwitchWorkspace Scenario.all_ok Scenario.origin
                         Scenario.base Scenario.workspaces
                         (id Scenario.alpha)) Scenario.u0)))
  = [LocationAssign (lit "https://cloud.example.com/app")]
  /\ navigations
       (events (snd (run (handleCreateWorkspace (P := Ref.platform)
                            Scenario.all_ok Scenario.origin (lit " team "))
                       Scenario.u0)))
     = [LocationAssign (lit "https://cloud.example.com")]
  /\ navigations
       (events (snd (run (handleDeleteWorkspace Scenario.all_ok
                            Scenario.origin
                            (workspaceToDelete Scenario.u0)) Scenario.u0)))
     = [LocationAssign (lit "https://cloud.example.com")].
Proof.
  destruct (@navigation_asymmetry Ref.platform Scenario.all_ok
              Scenario.origin Scenario.base) as (Hs & Hc & Hd).
  split; [| split].
  - apply (Hs Scenario.workspaces (id Scenario.alpha) Scenario.u0);
      reflexivity.
  - apply (Hc (lit " team ") {| rst_id := lit "w3" |} Scenario.u0).
    + vm_compute. discriminate.
    + reflexivity.
    + reflexivity.
  - apply (Hd {| ref_id := lit "w1"; ref_name := lit "Alpha" |} Scenario.u0).
    reflexivity.
Defined.

(** C8: confirming the delete of [alpha]. *)
Lemma handleDeleteWorkspace_spec_witness :
  events (snd (run (handleDeleteWorkspace Scenario.all_ok Scenario.origin
                      (workspaceToDelete Scenario.u0)) Scenario.u0))
  = [CallDeleteWorkspace "/workspaces/delete" (lit "w1");
     deleted_successfully;
     LocationAssign Scenario.origin].
Proof.
  apply (proj1 (proj2 (handleDeleteWorkspace_spec Scenario.all_ok
                         Scenario.origin Scenario.u0))
               {| ref_id := lit "w1"; ref_name := lit "Alpha" |}).
  reflexivity.
Defined.

(** C10: the create succeeds, the switch to ["w3"] is refused. *)
Lemma handleCreateWorkspace_switch_rejected_witness :
  notifications
    (events (snd (run (handleCreateWorkspace (P := Ref.platform)
                         Scenario.switch_refused Scenario.origin
                         (lit " team ")) Scenario.u0)))
  = [created_successfully; create_failed].
Proof.
  apply (proj1 (@handleCreateWorkspace_switch_rejected Ref.platform
                  Scenario.switch_refused Scenario.origin (lit " team ")
                  Scenario.u0 {| rst_id := lit "w3" |} {| body := None |}
                  ltac:(vm_compute; discriminate) eq_refl eq_refl)).
Defined.
(** *** The handlers run on the reference platform *)

(** A create refused with a code that is not the known one: the call,
    and nothing said to the user. *)
Example create_refused_other_code :
  run (handleCreateWorkspace (P := Ref.platform)
         (Scenario.create_refused
            (Some (Scenario.body_of_value Scenario.other_value)))
         Scenario.origin (lit " team ")) Scenario.u0
  = (Normal tt,
     {| ui := after_create Scenario.u0;
        events := [CallCreateWorkspace "/workspaces/create" (lit "team")] |}).
Proof. vm_compute. reflexivity. Qed.

(** A create refused with a body that is not JSON: the same. *)
Example create_refused_plain_text :
  run (handleCreateWorkspace (P := Ref.platform)
         (Scenario.create_refused
            (Some (fresh_stream [Ref.bytes Scenario.plain_text])))
         Scenario.origin (lit " team ")) Scenario.u0
  = (Normal tt,
     {| ui := after_create Scenario.u0;
        events := [CallCreateWorkspace "/workspaces/create" (lit "team")] |}).
Proof. vm_compute. reflexivity. Qed.

(** A create refused by an error without body, or with a body somebody
    else is reading: the decoder raises, and the outer [catch] reports
    the generic failure. *)
Example create_refused_no_body :
  run (handleCreateWorkspace (P := Ref.platform)
         (Scenario.create_refused None)
         Scenario.origin (lit " team ")) Scenario.u0
  = (Normal tt,
     {| ui := after_create Scenario.u0;
        events := [CallCreateWorkspace "/workspaces/create" (lit "team");
                   create_failed] |}).
Proof. vm_compute. reflexivity. Qed.

Example create_refused_locked_body :
  run (handleCreateWorkspace (P := Ref.platform)
         (Scenario.create_refused
            (Some {| queue := [Ref.encode (Ref.stringify Scenario.exceed_value)];
                     locked := true; errored := false; oplog := [] |}))
         Scenario.origin (lit " team ")) Scenario.u0
  = (Normal tt,
     {| ui := after_create Scenario.u0;
        events := [CallCreateWorkspace "/workspaces/create" (lit "team");
                   create_failed] |}).
Proof. vm_compute. reflexivity. Qed.

(** The known code in a body that comes in two chunks is not seen: the
    first chunk alone is not JSON. *)
Example create_refused_split_body :
  run (handleCreateWorkspace (P := Ref.platform)
         (Scenario.create_refused (Some Scenario.split_body))
         Scenario.origin (lit " team ")) Scenario.u0
  = (Normal tt,
     {| ui := after_create Scenario.u0;
        events := [CallCreateWorkspace "/workspaces/create" (lit "team")] |}).
Proof. vm_compute. reflexivity. Qed.

(** A switch to another workspace that the back end refuses. *)
Example switch_refused_alpha :
  run (handleSwitchWorkspace Scenario.switch_refused Scenario.origin
         Scenario.base Scenario.workspaces (id Scenario.alpha)) Scenario.u0
  = (Normal tt,
     {| ui := Scenario.u0;
        events := [CallSwitchWorkspace "/workspaces/switch" (lit "w1");
                   Notify error (t "common.provider.saveFailed")] |}).
Proof. vm_compute. reflexivity. Qed.

End WorkplaceSelectorFacts.

(* ================================================================= *)
(** ** More on the decoder *)

Section DecoderMore.
Context {P : Platform}.

(** The decoder on an argument that is not a stream. *)
Lemma readJsonFromStream_missing (R : Type) :
  ReadStream.readJsonFromStream (R := R) None = (Throw TypeError, None).
Proof. reflexivity. Qed.

(** The decoder on a stream a reader holds already. *)
Lemma readJsonFromStream_locked (R : Type) (s : ReadableStream) :
  locked s = true ->
  ReadStream.readJsonFromStream (R := R) (Some s)
  = (Throw TypeError, Some (ReadStream.log_op OpGetReader s)).
Proof.
  intros H.
  unfold ReadStream.readJsonFromStream, Eff.fn at 1, Eff.bind at 1.
  now rewrite (readStream_locked _ s H).
Qed.

(** The decoder on an errored stream no reader holds. *)
Lemma readJsonFromStream_errored (R : Type) (q : list Chunk)
      (log : list StreamOp) :
  ReadStream.readJsonFromStream (R := R)
    (Some {| queue := q; locked := false; errored := true; oplog := log |})
  = (Throw StreamError,
     Some {| queue := q; locked := true; errored := true;
             oplog := log ++ [OpGetReader; OpRead] |}).
Proof.
  unfold ReadStream.readJsonFromStream, Eff.fn at 1, Eff.bind at 1.
  now rewrite readStream_unlocked.
Qed.

(** X1. When the decoder raises.  It raises [TypeError] on an argument
    that is not a stream and on a stream a reader holds, and the error of
    the stream on an errored one; it raises in no other case: what the
    body holds never makes it raise. *)
Theorem readJsonFromStream_raises_iff (stream : option ReadableStream)
        (e : Exn) :
  fst (ReadStream.readJsonFromStream (R := Empty_set) stream) = Throw e
  <->
  (stream = None /\ e = TypeError)
  \/ (exists s, stream = Some s /\ locked s = true /\ e = TypeError)
  \/ (exists s, stream = Some s /\ locked s = false /\ errored s = true
                /\ e = StreamError).
Proof.
  destruct stream as [[q [|] err log]|].
  - rewrite readJsonFromStream_locked by reflexivity. simpl. split.
    + intros [= <-]. right; left. eexists; repeat split.
    + intros [[[=] _] | [(s & [= <-] & _ & ->) | (s & [= <-] & [=] & _)]].
      reflexivity.
  - destruct err.
    + rewrite readJsonFromStream_errored. simpl. split.
      * intros [= <-]. right; right. eexists; repeat split.
      * intros [[[=] _] | [(s & [= <-] & [=] & _) | (s & [= <-] & _ & _ & ->)]].
        reflexivity.
    + rewrite readJsonFromStream_unlocked. simpl. split.
      * discriminate.
      * intros [[[=] _] | [(s & [= <-] & [=] & _) | (s & [= <-] & _ & [=] & _)]].
  - rewrite readJsonFromStream_missing. simpl. split.
    + intros [= <-]. now left.
    + intros [[_ ->] | [(s & [=] & _) | (s & [=] & _)]]. reflexivity.
Qed.

(** X2. The decoder is one-shot.  It never releases the reader: after
    any call the stream is locked, and a second call on it raises
    [TypeError] without reading; the chunks left in the stream cannot be
    had through the decoder. *)
Theorem readJsonFromStream_one_shot (s : ReadableStream) :
  exists s',
    snd (ReadStream.readJsonFromStream (R := Empty_set) (Some s)) = Some s'
    /\ locked s' = true
    /\ ReadStream.readJsonFromStream (R := Empty_set) (Some s')
       = (Throw TypeError,
          Some {| queue := queue s'; locked := true; errored := errored s';
                  oplog := oplog s' ++ [OpGetReader] |}).
Proof.
  destruct s as [q [|] err log].
  - rewrite readJsonFromStream_locked by reflexivity.
    eexists. split; [reflexivity|]. split; [reflexivity|].
    now rewrite readJsonFromStream_locked by reflexivity.
  - destruct err.
    + rewrite readJsonFromStream_errored.
      eexists. split; [reflexivity|]. split; [reflexivity|].
      now rewrite readJsonFromStream_locked by reflexivity.
    + rewrite readJsonFromStream_unlocked.
      eexists. split; [reflexivity|]. split; [reflexivity|].
      now rewrite readJsonFromStream_locked by reflexivity.
Qed.

(** X3. What the decoder returns.  On a readable stream no reader holds
    it returns a result which is of one of two kinds: [error] is [null]
    and [data] is what the text of the first chunk parses to, or [error]
    is the exception of the parser and [data] is that text, as a string.
    So [error] is [null] exactly when the text is JSON. *)
Theorem readJsonFromStream_result (q : list Chunk) (log : list StreamOp) :
  let text := TextDecoder_decode (hd_error q) in
  exists d,
    fst (ReadStream.readJsonFromStream (R := Empty_set)
           (Some {| queue := q; locked := false; errored := false;
                    oplog := log |}))
    = Normal d
    /\ ((ReadStream.error d = None
         /\ JSON_parse text = Some (ReadStream.data d))
        \/ (ReadStream.error d = Some SyntaxError
            /\ ReadStream.data d = JString text
            /\ JSON_parse text = None)).
Proof.
  intros text. rewrite readJsonFromStream_unlocked. cbn [fst].
  exists (decoded_text text). split; [reflexivity|].
  unfold decoded_text.
  destruct (JSON_parse text) as [v|]; [left | right]; repeat split.
Qed.

End DecoderMore.

(** X1 at the body of an error that has none, and at a stream being
    read. *)
Lemma readJsonFromStream_raises_iff_witness :
  fst (ReadStream.readJsonFromStream (P := Ref.platform) (R := Empty_set)
         None) = Throw TypeError
  /\ fst (ReadStream.readJsonFromStream (P := Ref.platform) (R := Empty_set)
            (Some {| queue := [Ref.bytes Scenario.plain_text];
                     locked := true; errored := false; oplog := [] |}))
     = Throw TypeError.
Proof.
  split.
  - apply (proj2 (@readJsonFromStream_raises_iff Ref.platform None TypeError)).
    left. split; reflexivity.
  - apply (proj2 (@readJsonFromStream_raises_iff Ref.platform _ TypeError)).
    right; left. eexists. repeat split.
Defined.
(* ================================================================= *)
(** ** More on the handlers *)

Module WorkplaceSelectorMore.
Import WorkplaceSelector WorkplaceSelectorFacts WorkplaceSelectorView.

Section HandlerMore.
Context {P : Platform}.
Variable services : Services.
Variable location_origin : JSString.
Variable basePath : JSString.

(** *** A handler adds to the trace it finds *)

Lemma handleSwitchWorkspace_after_trace
      (workspaces : list Workspace) (tenant_id : JSString) :
  after_trace (handleSwitchWorkspace services location_origin basePath
                 workspaces tenant_id).
Proof.
  intros u l. unfold_handler.
  destruct (is_current_id workspaces tenant_id); simpl.
  - now rewrite app_nil_r.
  - destruct (switchWorkspace_answer services tenant_id); simpl;
      rewrite <- ?app_assoc; reflexivity.
Qed.

Lemma handleCreateWorkspace_after_trace (name : JSString) :
  after_trace (handleCreateWorkspace services location_origin name).
Proof.
  intros u l. unfold_handler.
  destruct (truthy_string (trim name)); simpl; [|reflexivity].
  destruct (createWorkspace_answer services (trim name)) as [rst | r]; simpl.
  - destruct (switchWorkspace_answer services (rst_id rst)); simpl;
      rewrite <- ?app_assoc; reflexivity.
  - unfold await_readJsonFromStream.
    destruct (ReadStream.readJsonFromStream (body r)) as [[d | [] | e] s'];
      simpl; [|rewrite <- ?app_assoc; reflexivity].
    destruct (ReadStream.error d); [reflexivity|].
    destruct (strict_eq_lit _ _); simpl; rewrite <- ?app_assoc; reflexivity.
Qed.

Lemma handleDeleteWorkspace_after_trace (pending : option WorkspaceRef) :
  after_trace (handleDeleteWorkspace services location_origin pending).
Proof.
  intros u l. unfold_handler.
  destruct pending as [wd|]; simpl; [|now rewrite app_nil_r].
  destruct (deleteWorkspace_answer services (ref_id wd)); simpl;
    rewrite <- ?app_assoc; reflexivity.
Qed.

Lemma showDeleteConfirm_after_trace (workspace : WorkspaceRef) :
  after_trace (showDeleteConfirm workspace).
Proof.
  intros u l. unfold showDeleteConfirm. unfold_handler.
  now rewrite app_nil_r.
Qed.

(** X4. No handler lets an exception out: whatever the back end
    answers, whatever the error carries as its body, and whatever
    happened before, each of the four completes normally. *)
Theorem handlers_never_raise
        (workspaces : list Workspace) (tenant_id name : JSString)
        (pending : option WorkspaceRef) (workspace : WorkspaceRef)
        (w : World) :
  fst (handleSwitchWorkspace services location_origin basePath workspaces
         tenant_id w) = Normal tt
  /\ fst (handleCreateWorkspace services location_origin name w) = Normal tt
  /\ fst (handleDeleteWorkspace services location_origin pending w)
     = Normal tt
  /\ fst (showDeleteConfirm workspace w) = Normal tt.
Proof.
  destruct w as [u l].
  rewrite handleSwitchWorkspace_after_trace,
    handleCreateWorkspace_after_trace, handleDeleteWorkspace_after_trace,
    showDeleteConfirm_after_trace.
  repeat split.
Qed.


(** *** [trim] *)

Lemma trimStart_head (s : JSString) (c : N) :
  hd_error (trimStart s) = Some c -> is_js_whitespace c = false.
Proof.
  induction s as [|x s IH]; simpl; [discriminate|].
  destruct (is_js_whitespace x) eqn:Hx; [exact IH|].
  simpl. now intros [= <-].
Qed.

(** What [trimStart] drops is in front. *)
Lemma trimStart_suffix (s : JSString) :
  exists dropped, s = dropped ++ trimStart s.
Proof.
  induction s as [|x s [dropped IH]]; simpl.
  - now exists [].
  - destruct (is_js_whitespace x).
    + exists (x :: dropped). simpl. now f_equal.
    + now exists [].
Qed.

Lemma trimEnd_last (s : JSString) (c : N) :
  hd_error (rev (trimEnd s)) = Some c -> is_js_whitespace c = false.
Proof.
  unfold trimEnd. rewrite rev_involutive. apply trimStart_head.
Qed.

(** What [trimEnd] drops is behind. *)
Lemma trimEnd_prefix (s : JSString) :
  exists dropped, s = trimEnd s ++ dropped.
Proof.
  unfold trimEnd.
  destruct (trimStart_suffix (rev s)) as [dropped H].
  exists (rev dropped).
  rewrite <- rev_app_distr, <- H. now rewrite rev_involutive.
Qed.

Lemma trim_trimmed (s : JSString) : trim s <> [] -> trimmed_name (trim s).
Proof.
  intros Hne. split; [exact Hne|]. split.
  - intros c Hc. unfold trim in *.
    destruct (trimEnd_prefix (trimStart s)) as [dropped H].
    apply (trimStart_head s). rewrite H.
    destruct (trimEnd (trimStart s)); [congruence | exact Hc].
  - intros c. unfold trim. apply trimEnd_last.
Qed.

Lemma trimStart_fixed (s : JSString) :
  (forall c, hd_error s = Some c -> is_js_whitespace c = false) ->
  trimStart s = s.
Proof.
  destruct s as [|x s]; [reflexivity|].
  intros H. simpl. now rewrite (H x eq_refl).
Qed.

(** [trim] does nothing to what it has trimmed. *)
Lemma trim_idempotent (s : JSString) : trim (trim s) = trim s.
Proof.
  destruct (trim s) as [|x r] eqn:E; [reflexivity|].
  assert (Ht : trimmed_name (trim s)) by (apply trim_trimmed; congruence).
  rewrite E in Ht. destruct Ht as (_ & Hhd & Hlast).
  unfold trim. rewrite (trimStart_fixed _ Hhd).
  unfold trimEnd. rewrite (trimStart_fixed _ Hlast).
  apply rev_involutive.
Qed.

(** *** The handlers, again *)

(** X5. A switch changes no cell of the component, whatever its
    target and its outcome.  When the target is not the id of the current
    workspace (or no workspace is current), there is one switch call for
    it, then either the success notification and the navigation, or the
    "save failed" notification alone: the error is not looked at. *)
Theorem handleSwitchWorkspace_other_workspace
        (workspaces : list Workspace) (tenant_id : JSString) (u : UIState) :
  ui (snd (run (handleSwitchWorkspace services location_origin basePath
                  workspaces tenant_id) u)) = u
  /\
  ((forall w, currentWorkspace workspaces = Some w -> id w <> tenant_id) ->
   events (snd (run (handleSwitchWorkspace services location_origin basePath
                       workspaces tenant_id) u))
   = CallSwitchWorkspace "/workspaces/switch" tenant_id
     :: match switchWorkspace_answer services tenant_id with
        | Resolves _ =>
            [Notify success (t "common.actionMsg.modifiedSuccessfully");
             LocationAssign (location_origin ++ basePath)]
        | Rejects _ => [Notify error (t "common.provider.saveFailed")]
        end).
Proof.
  assert (Hcases : is_current_id workspaces tenant_id = true
                   \/ is_current_id workspaces tenant_id = false)
    by (destruct (is_current_id workspaces tenant_id); auto).
  destruct Hcases as [Hcur | Hcur].
  - split.
    + unfold_handler. now rewrite Hcur.
    + intros Hother. exfalso. unfold is_current_id in Hcur.
      destruct (currentWorkspace workspaces) as [w|]; [|discriminate].
      apply jsstr_eqb_eq in Hcur. exact (Hother w eq_refl Hcur).
  - rewrite (handleSwitchWorkspace_other services location_origin basePath
               workspaces tenant_id u Hcur).
    split; [reflexivity | intros _; reflexivity].
Qed.

(** X6. A delete that the back end refuses: the delete call, then the
    "delete failed" notification and nothing else; no navigation, and the
    body of the error plays no part. *)
Theorem handleDeleteWorkspace_refused
        (wd : WorkspaceRef) (r : Rejection) (u : UIState) :
  deleteWorkspace_answer services (ref_id wd) = Rejects r ->
  events (snd (run (handleDeleteWorkspace services location_origin (Some wd))
                 u))
  = [CallDeleteWorkspace "/workspaces/delete" (ref_id wd);
     Notify error (t "common.actionMsg.deleteFailed")].
Proof.
  intros H.
  now rewrite (handleDeleteWorkspace_pending services location_origin wd u), H.
Qed.

(** X7. A handler navigates only when it has succeeded: a switch,
    when its target is not current and the call resolves; a create, when
    the name is not blank and both the create and the switch that follows
    resolve; a delete, when a workspace is pending and the call
    resolves.  The address is the one of that handler. *)
Theorem navigation_only_on_success
        (workspaces : list Workspace) (tenant_id name : JSString)
        (pending : option WorkspaceRef) (u : UIState) (url : JSString) :
  (In (LocationAssign url)
      (events (snd (run (handleSwitchWorkspace services location_origin
                           basePath workspaces tenant_id) u)))
   <-> is_current_id workspaces tenant_id = false
       /\ switchWorkspace_answer services tenant_id = Resolves tt
       /\ url = location_origin ++ basePath)
  /\
  (In (LocationAssign url)
      (events (snd (run (handleCreateWorkspace services location_origin
                           name) u)))
   <-> trim name <> []
       /\ (exists rst,
              createWorkspace_answer services (trim name) = Resolves rst
              /\ switchWorkspace_answer services (rst_id rst) = Resolves tt)
       /\ url = location_origin)
  /\
  (In (LocationAssign url)
      (events (snd (run (handleDeleteWorkspace services location_origin
                           pending) u)))
   <-> (exists wd,
           pending = Some wd
           /\ deleteWorkspace_answer services (ref_id wd) = Resolves tt)
       /\ url = location_origin).
Proof.
  split; [|split].
  - destruct (is_current_id workspaces tenant_id) eqn:Hcur.
    + unfold_handler. rewrite Hcur. simpl. split; [contradiction|].
      intros [[=] _].
    + rewrite (handleSwitchWorkspace_other services location_origin basePath
                 workspaces tenant_id u Hcur). cbn [snd events].
      destruct (switchWorkspace_answer services tenant_id) as [[]|r]; simpl.
      * split.
        -- intros [[=] | [[=] | [[= <-] | []]]]. repeat split.
        -- intros (_ & _ & ->). auto.
      * split.
        -- intros [[=] | [[=] | []]].
        -- intros (_ & [=] & _).
  - destruct (trim name) as [|c0 n0] eqn:Hname.
    + rewrite (handleCreateWorkspace_blank services location_origin name u
                 Hname). simpl. split.
      * intros [[=] | []].
      * intros [Hne _]. now contradiction Hne.
    + assert (Hne : trim name <> []) by congruence.
      rewrite <- Hname.
      destruct (createWorkspace_answer services (trim name)) as [rst | r]
        eqn:Hc.
      * rewrite (handleCreateWorkspace_resolved services location_origin
                   name u rst Hne Hc). cbn [snd events].
        destruct (switchWorkspace_answer services (rst_id rst)) as [[]|r]
          eqn:Hs; simpl.
        -- split.
           ++ intros [[=] | [[=] | [[=] | [[= <-] | []]]]].
              split; [exact Hne|]. split; [|reflexivity].
              exists rst. split; [reflexivity | exact Hs].
           ++ intros (_ & _ & ->). auto.
        -- split.
           ++ intros [[=] | [[=] | [[=] | [[=] | []]]]].
           ++ intros (_ & (rst' & [= <-] & Hs') & _). congruence.
      * rewrite (handleCreateWorkspace_rejected services location_origin
                   name u r Hne Hc). cbn [snd events]. split.
        -- intros [[=] | Hin]. exfalso.
           destruct (fst (ReadStream.readJsonFromStream (body r)))
             as [d | [] | e].
           ++ destruct (ReadStream.error d); [contradiction|].
              destruct (strict_eq_lit _ _);
                repeat (destruct Hin as [Hin | Hin]; try discriminate);
                contradiction.
           ++ repeat (destruct Hin as [Hin | Hin]; try discriminate);
                contradiction.
        -- intros (_ & (rst & [=] & _) & _).
  - destruct pending as [wd|].
    + rewrite (handleDeleteWorkspace_pending services location_origin wd u).
      cbn [snd events].
      destruct (deleteWorkspace_answer services (ref_id wd)) as [[]|r] eqn:Hd;
        simpl.
      * split.
        -- intros [[=] | [[=] | [[= <-] | []]]].
           split; [|reflexivity]. exists wd. now split.
        -- intros (_ & ->). auto.
      * split.
        -- intros [[=] | [[=] | []]].
        -- intros ((wd' & [= <-] & Hd') & _). congruence.
    + unfold_handler. split; [contradiction|].
      intros ((wd & [=] & _) & _).
Qed.

(** X8. A blank name changes nothing: the dialog stays open, the draft
    stays as typed and [loading] is not touched; the [finally] of the
    handler is not reached. *)
Theorem handleCreateWorkspace_blank_keeps_state
        (name : JSString) (u : UIState) :
  trim name = [] ->
  ui (snd (run (handleCreateWorkspace services location_origin name) u)) = u.
Proof.
  intros H.
  now rewrite (handleCreateWorkspace_blank services location_origin name u H).
Qed.

(** The create calls of a create *)
Lemma handleCreateWorkspace_create_calls (name : JSString) (u : UIState)
      (url : string) (n : JSString) :
  In (CallCreateWorkspace url n)
     (events (snd (run (handleCreateWorkspace services location_origin name)
                     u))) ->
  trim name <> [] /\ url = "/workspaces/create"%string /\ n = trim name.
Proof.
  intros Hin.
  destruct (trim name) as [|c0 n0] eqn:Hname.
  - rewrite (handleCreateWorkspace_blank services location_origin name u
               Hname) in Hin.
    simpl in Hin. destruct Hin as [[=] | []].
  - assert (Hne : trim name <> []) by congruence.
    rewrite <- Hname in *. split; [exact Hne|].
    destruct (createWorkspace_answer services (trim name)) as [rst | r]
      eqn:Hc.
    + rewrite (handleCreateWorkspace_resolved services location_origin
                 name u rst Hne Hc) in Hin. cbn [snd events] in Hin.
      destruct Hin as [[= <- <-] | Hin]; [split; reflexivity|].
      exfalso.
      destruct (switchWorkspace_answer services (rst_id rst));
        simpl in Hin;
        repeat (destruct Hin as [Hin | Hin]; try discriminate);
        contradiction.
    + rewrite (handleCreateWorkspace_rejected services location_origin
                 name u r Hne Hc) in Hin. cbn [snd events] in Hin.
      destruct Hin as [[= <- <-] | Hin]; [split; reflexivity|].
      exfalso.
      destruct (fst (ReadStream.readJsonFromStream (body r)))
        as [d | [] | e].
      * destruct (ReadStream.error d); [contradiction|].
        destruct (strict_eq_lit _ _);
          repeat (destruct Hin as [Hin | Hin]; try discriminate);
          contradiction.
      * repeat (destruct Hin as [Hin | Hin]; try discriminate);
          contradiction.
Qed.

(** X9. What a create sends.  Every create call goes to the create
    address with a name that is not empty and has white space neither
    first nor last: it is the draft, trimmed, and trimming it again
    changes nothing. *)
Theorem handleCreateWorkspace_sends_trimmed_name
        (name : JSString) (u : UIState) (url : string) (n : JSString) :
  In (CallCreateWorkspace url n)
     (events (snd (run (handleCreateWorkspace services location_origin name)
                     u))) ->
  url = "/workspaces/create"%string
  /\ n = trim name /\ trimmed_name n /\ trim n = n.
Proof.
  intros Hin.
  destruct (handleCreateWorkspace_create_calls name u url n Hin)
    as (Hne & -> & ->).
  split; [reflexivity|]. split; [reflexivity|]. split.
  - now apply trim_trimmed.
  - apply trim_idempotent.
Qed.

(** X10. The switch that follows a create.  When the create resolves
    there is one switch call, for the id the create returned, made after
    the "created successfully" notification; when the create is refused
    there is no switch call and no such notification. *)
Theorem handleCreateWorkspace_chained_switch (name : JSString) (u : UIState) :
  trim name <> [] ->
  let evs :=
    events (snd (run (handleCreateWorkspace services location_origin name) u))
  in
  (forall rst,
      createWorkspace_answer services (trim name) = Resolves rst ->
      switch_calls evs
      = [CallSwitchWorkspace "/workspaces/switch" (rst_id rst)]
      /\ firstn 3 evs
         = [CallCreateWorkspace "/workspaces/create" (trim name);
            created_successfully;
            CallSwitchWorkspace "/workspaces/switch" (rst_id rst)])
  /\
  (forall r,
      createWorkspace_answer services (trim name) = Rejects r ->
      switch_calls evs = [] /\ ~ In created_successfully evs).
Proof.
  intros Hne evs; subst evs. split.
  - intros rst Hc.
    rewrite (handleCreateWorkspace_resolved services location_origin
               name u rst Hne Hc). cbn [snd events].
    destruct (switchWorkspace_answer services (rst_id rst));
      split; reflexivity.
  - intros r Hc.
    rewrite (handleCreateWorkspace_rejected services location_origin
               name u r Hne Hc). cbn [snd events].
    destruct (fst (ReadStream.readJsonFromStream (body r))) as [d | [] | e].
    + destruct (ReadStream.error d).
      * split; [reflexivity|]. intros [[=] | []].
      * destruct (strict_eq_lit _ _); (split; [reflexivity|]);
          intros Hin;
          repeat (destruct Hin as [Hin | Hin]; try discriminate);
          contradiction.
    + split; [reflexivity|]. intros Hin.
      repeat (destruct Hin as [Hin | Hin]; try discriminate);
        contradiction.
Qed.

(** X12. A create refused by an error whose body cannot be read (there
    is none, or a reader holds it, or the stream is errored): the decoder
    raises, the outer [catch] takes it, and the user gets the generic
    "create failed" notification, once. *)
Theorem handleCreateWorkspace_unreadable_body
        (name : JSString) (u : UIState) (r : Rejection) :
  trim name <> [] ->
  createWorkspace_answer services (trim name) = Rejects r ->
  body r = None
  \/ (exists s, body r = Some s /\ (locked s = true \/ errored s = true)) ->
  events (snd (run (handleCreateWorkspace services location_origin name) u))
  = [CallCreateWorkspace "/workspaces/create" (trim name); create_failed].
Proof.
  intros Hne Hc Hbody.
  rewrite (handleCreateWorkspace_rejected services location_origin
             name u r Hne Hc). cbn [snd events].
  destruct Hbody as [-> | (s & -> & Hs)].
  - now rewrite readJsonFromStream_missing.
  - destruct s as [q [|] err log].
    + now rewrite readJsonFromStream_locked.
    + destruct Hs as [[=] | Hs]. simpl in Hs. subst err.
      now rewrite readJsonFromStream_errored.
Qed.

End HandlerMore.

(** X11. Of the body of the error of a refused create, the handler sees
    the first chunk only: two back ends that refuse with bodies that
    start with the same chunk make it do the same. *)
Theorem handleCreateWorkspace_first_chunk_only
        {P : Platform} (services services' : Services)
        (location_origin name : JSString) (u : UIState)
        (c : Chunk) (rest rest' : list Chunk) :
  createWorkspace_answer services (trim name)
  = Rejects {| body := Some (fresh_stream (c :: rest)) |} ->
  createWorkspace_answer services' (trim name)
  = Rejects {| body := Some (fresh_stream (c :: rest')) |} ->
  run (handleCreateWorkspace services location_origin name) u
  = run (handleCreateWorkspace services' location_origin name) u.
Proof.
  intros Hc Hc'.
  destruct (trim name) as [|c0 n0] eqn:Hname.
  - now rewrite !handleCreateWorkspace_blank by exact Hname.
  - assert (Hne : trim name <> []) by congruence.
    rewrite <- Hname in *.
    rewrite (handleCreateWorkspace_rejected services location_origin
               name u _ Hne Hc).
    rewrite (handleCreateWorkspace_rejected services' location_origin
               name u _ Hne Hc').
    cbn [body]. unfold fresh_stream.
    now rewrite !readJsonFromStream_unlocked.
Qed.

(** *** The statements at the scenarios *)

(** X5: a click on [alpha] while [beta] is current, refused. *)
Lemma handleSwitchWorkspace_other_workspace_witness :
  events (snd (run (handleSwitchWorkspace Scenario.switch_refused
                      Scenario.origin Scenario.base Scenario.workspaces
                      (id Scenario.alpha)) Scenario.u0))
  = [CallSwitchWorkspace "/workspaces/switch" (lit "w1");
     Notify error (t "common.provider.saveFailed")].
Proof.
  apply (proj2 (handleSwitchWorkspace_other_workspace Scenario.switch_refused
                  Scenario.origin Scenario.base Scenario.workspaces
                  (id Scenario.alpha) Scenario.u0)).
  intros w [= <-]. discriminate.
Defined.

(** X6: the delete of [alpha], refused. *)
Lemma handleDeleteWorkspace_refused_witness :
  events (snd (run (handleDeleteWorkspace ViewScenario.delete_refused
                      Scenario.origin
                      (workspaceToDelete Scenario.u0)) Scenario.u0))
  = [CallDeleteWorkspace "/workspaces/delete" (lit "w1");
     Notify error (t "common.actionMsg.deleteFailed")].
Proof.
  apply (handleDeleteWorkspace_refused ViewScenario.delete_refused
           Scenario.origin
           {| ref_id := lit "w1"; ref_name := lit "Alpha" |}
           {| body := None |} Scenario.u0).
  reflexivity.
Defined.

(** X7: a create whose switch is refused does not navigate. *)
Lemma navigation_only_on_success_witness :
  ~ In (LocationAssign Scenario.origin)
       (events (snd (run (handleCreateWorkspace (P := Ref.platform)
                            Scenario.switch_refused Scenario.origin
                            (lit " team ")) Scenario.u0))).
Proof.
  intros Hin.
  apply (proj1 (proj1 (proj2
           (@navigation_only_on_success Ref.platform Scenario.switch_refused
              Scenario.origin Scenario.base Scenario.workspaces
              (id Scenario.alpha) (lit " team ") None Scenario.u0
              Scenario.origin)))) in Hin.
  destruct Hin as (_ & (rst & _ & Hsw) & _). discriminate Hsw.
Defined.

(** X8: a draft of white space only. *)
Lemma handleCreateWorkspace_blank_keeps_state_witness :
  ui (snd (run (handleCreateWorkspace (P := Ref.platform) Scenario.all_ok
                  Scenario.origin [32; 9; 160; 12288]%N) Scenario.u0))
  = Scenario.u0.
Proof.
  apply (@handleCreateWorkspace_blank_keeps_state Ref.platform).
  vm_compute. reflexivity.
Defined.

(** X9: the name sent for the draft [" team "]. *)
Lemma handleCreateWorkspace_sends_trimmed_name_witness :
  trimmed_name (lit "team") /\ trim (lit "team") = lit "team".
Proof.
  refine (proj2 (proj2
            (@handleCreateWorkspace_sends_trimmed_name Ref.platform
               Scenario.all_ok Scenario.origin (lit " team ") Scenario.u0
               "/workspaces/create" (lit "team") _))).
  vm_compute. left. reflexivity.
Defined.

(** X10: the create answers ["w3"], the switch goes to ["w3"]. *)
Lemma handleCreateWorkspace_chained_switch_witness :
  switch_calls
    (events (snd (run (handleCreateWorkspace (P := Ref.platform)
                         Scenario.all_ok Scenario.origin (lit " team "))
                    Scenario.u0)))
  = [CallSwitchWorkspace "/workspaces/switch" (lit "w3")].
Proof.
  refine (proj1 (proj1
            (@handleCreateWorkspace_chained_switch Ref.platform
               Scenario.all_ok Scenario.origin (lit " team ") Scenario.u0 _)
            {| rst_id := lit "w3" |} eq_refl)).
  vm_compute. discriminate.
Defined.

(** X11: the body in two chunks, and its first chunk alone. *)
Lemma handleCreateWorkspace_first_chunk_only_witness :
  run (handleCreateWorkspace (P := Ref.platform)
         (Scenario.create_refused (Some Scenario.split_body))
         Scenario.origin (lit " team ")) Scenario.u0
  = run (handleCreateWorkspace (P := Ref.platform)
           (Scenario.create_refused
              (Some (fresh_stream
                       [firstn 20 (Ref.encode
                                     (Ref.stringify Scenario.exceed_value))])))
           Scenario.origin (lit " team ")) Scenario.u0.
Proof.
  apply (@handleCreateWorkspace_first_chunk_only Ref.platform _ _
           Scenario.origin (lit " team ") Scenario.u0
           (firstn 20 (Ref.encode (Ref.stringify Scenario.exceed_value)))
           [skipn 20 (Ref.encode (Ref.stringify Scenario.exceed_value))]
           []);
    reflexivity.
Defined.

(** X12: an error without body. *)
Lemma handleCreateWorkspace_unreadable_body_witness :
  events (snd (run (handleCreateWorkspace (P := Ref.platform)
                      (Scenario.create_refused None) Scenario.origin
                      (lit " team ")) Scenario.u0))
  = [CallCreateWorkspace "/workspaces/create" (lit "team"); create_failed].
Proof.
  apply (@handleCreateWorkspace_unreadable_body Ref.platform
           (Scenario.create_refused None) Scenario.origin (lit " team ")
           Scenario.u0 {| body := None |}).
  - vm_compute. discriminate.
  - reflexivity.
  - left. reflexivity.
Defined.

End WorkplaceSelectorMore.

(* ================================================================= *)
(** ** The component as the user drives it *)

Module WorkplaceSelectorViewFacts.
Import WorkplaceSelector WorkplaceSelectorFacts WorkplaceSelectorView
       WorkplaceSelectorMore.

(** Going through the elements of a trace known case by case. *)
Ltac in_trace H :=
  repeat (destruct H as [H | H]; [try discriminate H|]);
  try contradiction.

Section ViewFacts.
Context {P : Platform}.
Variable services : Services.
Variable location_origin : JSString.
Variable basePath : JSString.
Variable workspaces : list Workspace.

(** *** The state and the events each handler can leave *)

Lemma trim_cases (s : JSString) : trim s = [] \/ trim s <> [].
Proof. destruct (trim s); [left | right]; congruence. Qed.

Lemma handleSwitchWorkspace_ui (tenant_id : JSString) (u : UIState) :
  ui (snd (run (handleSwitchWorkspace services location_origin basePath
                  workspaces tenant_id) u)) = u.
Proof.
  unfold_handler.
  destruct (is_current_id workspaces tenant_id); simpl; [reflexivity|].
  destruct (switchWorkspace_answer services tenant_id); reflexivity.
Qed.

Lemma handleSwitchWorkspace_alphabet (tenant_id : JSString) (u : UIState)
      (e : Event) :
  In e (events (snd (run (handleSwitchWorkspace services location_origin
                            basePath workspaces tenant_id) u))) ->
  is_create_call e = false
  /\ (forall url i, e <> CallDeleteWorkspace url i).
Proof.
  unfold_handler.
  destruct (is_current_id workspaces tenant_id); simpl; [contradiction|].
  destruct (switchWorkspace_answer services tenant_id); simpl;
    intros H; in_trace H; subst e; split; (reflexivity || discriminate).
Qed.

Lemma handleCreateWorkspace_ui (name : JSString) (u : UIState) :
  ui (snd (run (handleCreateWorkspace services location_origin name) u))
  = if truthy_string (trim name) then after_create u else u.
Proof.
  destruct (trim_cases name) as [Hname | Hne].
  - rewrite (handleCreateWorkspace_blank services location_origin name u
               Hname).
    now rewrite Hname.
  - rewrite (trim_nonempty_truthy name Hne).
    destruct (createWorkspace_answer services (trim name)) as [rst | r]
      eqn:Hc.
    + now rewrite (handleCreateWorkspace_resolved services location_origin
                     name u rst Hne Hc).
    + now rewrite (handleCreateWorkspace_rejected services location_origin
                     name u r Hne Hc).
Qed.


Lemma handleDeleteWorkspace_ui (pending : option WorkspaceRef) (u : UIState) :
  ui (snd (run (handleDeleteWorkspace services location_origin pending) u))
  = match pending with Some _ => after_delete u | None => u end.
Proof.
  destruct pending as [wd|]; [|reflexivity].
  now rewrite (handleDeleteWorkspace_pending services location_origin wd u).
Qed.

Lemma handleDeleteWorkspace_alphabet (pending : option WorkspaceRef)
      (u : UIState) (e : Event) :
  In e (events (snd (run (handleDeleteWorkspace services location_origin
                            pending) u))) ->
  is_create_call e = false
  /\ (forall url i,
         e = CallDeleteWorkspace url i ->
         url = "/workspaces/delete"%string
         /\ exists wd, pending = Some wd /\ ref_id wd = i).
Proof.
  destruct pending as [wd|]; [|simpl; contradiction].
  rewrite (handleDeleteWorkspace_pending services location_origin wd u).
  cbn [snd events].
  destruct (deleteWorkspace_answer services (ref_id wd)); simpl;
    intros H; in_trace H; subst e;
    (split; [reflexivity|]); intros url i; try discriminate;
    intros [= <- <-]; (split; [reflexivity|]); now exists wd.
Qed.

(** *** One action *)

Lemma callback_after_trace (u : UIState) (a : Action) :
  after_trace (callback services location_origin basePath workspaces u a).
Proof.
  destruct a as [row | row | | value | | | |]; cbn [callback].
  - destruct (nth_error workspaces row).
    + apply handleSwitchWorkspace_after_trace.
    + intros u' l. unfold run, Eff.ret. simpl. now rewrite app_nil_r.
  - destruct (nth_error workspaces row).
    + apply showDeleteConfirm_after_trace.
    + intros u' l. unfold run, Eff.ret. simpl. now rewrite app_nil_r.
  - intros u' l. unfold openCreateModal. unfold_handler.
    now rewrite app_nil_r.
  - intros u' l. unfold onChangeName. unfold_handler. now rewrite app_nil_r.
  - intros u' l. unfold closeCreateModal. unfold_handler.
    now rewrite app_nil_r.
  - apply handleCreateWorkspace_after_trace.
  - intros u' l. unfold closeDeleteModal. unfold_handler.
    now rewrite app_nil_r.
  - apply handleDeleteWorkspace_after_trace.
Qed.

(** What an action leaves: the state and the trace. *)
Lemma perform_spec (a : Action) (w : World) :
  perform services location_origin basePath workspaces a w
  = {| ui := ui (snd (run (callback services location_origin basePath
                             workspaces (ui w) a) (ui w)));
       events :=
         events w
         ++ events (snd (run (callback services location_origin basePath
                                workspaces (ui w) a) (ui w))) |}.
Proof.
  unfold perform. destruct w as [u l]. cbn [ui events].
  now rewrite callback_after_trace.
Qed.

(** A property that the mount has and every action keeps holds of every
    world the user can bring about. *)
Lemma reachable_ind (Inv : World -> Prop) :
  Inv {| ui := initial_ui; events := [] |} ->
  (forall w a,
      Inv w ->
      offered workspaces (ui w) a = true ->
      Inv (perform services location_origin basePath workspaces a w)) ->
  forall w,
    reachable services location_origin basePath workspaces w -> Inv w.
Proof.
  intros Hinit Hstep w [actions Hplay].
  revert Hplay Hinit. generalize {| ui := initial_ui; events := [] |}.
  induction actions as [|a actions IH]; intros w0 Hplay Hw0.
  - simpl in Hplay. now injection Hplay as <-.
  - simpl in Hplay.
    destruct (offered workspaces (ui w0) a) eqn:Ha; [|discriminate].
    exact (IH _ Hplay (Hstep w0 a Hw0 Ha)).
Qed.


(** The callbacks that only set cells *)
Lemma showDeleteConfirm_run (workspace : WorkspaceRef) (u : UIState) :
  run (showDeleteConfirm workspace) u
  = (Normal tt,
     {| ui := {| isCreating := isCreating u;
                 newWorkspaceName := newWorkspaceName u;
                 loading := loading u; isDeleting := true;
                 workspaceToDelete := Some workspace |};
        events := [] |}).
Proof. reflexivity. Qed.

Lemma openCreateModal_run (u : UIState) :
  run openCreateModal u
  = (Normal tt,
     {| ui := {| isCreating := true;
                 newWorkspaceName := newWorkspaceName u;
                 loading := loading u; isDeleting := isDeleting u;
                 workspaceToDelete := workspaceToDelete u |};
        events := [] |}).
Proof. reflexivity. Qed.

Lemma onChangeName_run (value : JSString) (u : UIState) :
  run (onChangeName value) u
  = (Normal tt,
     {| ui := {| isCreating := isCreating u; newWorkspaceName := value;
                 loading := loading u; isDeleting := isDeleting u;
                 workspaceToDelete := workspaceToDelete u |};
        events := [] |}).
Proof. reflexivity. Qed.

Lemma closeCreateModal_run (u : UIState) :
  run closeCreateModal u
  = (Normal tt,
     {| ui := {| isCreating := false; newWorkspaceName := [];
                 loading := loading u; isDeleting := isDeleting u;
                 workspaceToDelete := workspaceToDelete u |};
        events := [] |}).
Proof. reflexivity. Qed.

Lemma closeDeleteModal_run (u : UIState) :
  run closeDeleteModal u
  = (Normal tt,
     {| ui := {| isCreating := isCreating u;
                 newWorkspaceName := newWorkspaceName u;
                 loading := loading u; isDeleting := false;
                 workspaceToDelete := None |};
        events := [] |}).
Proof. reflexivity. Qed.

(** X13. From the icon to the call.  The delete icon of a row that has
    one opens the confirmation and calls nothing.  Confirming then makes
    one delete call, for the workspace of that row, followed by the
    success notification and the navigation, or by the "delete failed"
    notification; cancelling instead calls nothing.  Either way the
    confirmation is gone, and with it the Delete button. *)
Theorem delete_from_icon (row : nat) (workspace : Workspace) (w : World) :
  nth_error workspaces row = Some workspace ->
  delete_icon_rendered workspace = true ->
  let act a := perform services location_origin basePath workspaces a in
  let opened := act (ClickDeleteIcon row) w in
  events opened = events w
  /\ offered workspaces (ui opened) ClickDelete = true
  /\ events (act ClickDelete opened)
     = events w
       ++ CallDeleteWorkspace "/workspaces/delete" (id workspace)
          :: match deleteWorkspace_answer services (id workspace) with
             | Resolves _ =>
                 [deleted_successfully; LocationAssign location_origin]
             | Rejects _ => [Notify error (t "common.actionMsg.deleteFailed")]
             end
  /\ offered workspaces (ui (act ClickDelete opened)) ClickDelete = false
  /\ events (act CloseDeleteModal opened) = events w
  /\ offered workspaces (ui (act CloseDeleteModal opened)) ClickDelete = false.
Proof.
  intros Hrow Hicon act opened. subst opened act.
  rewrite !perform_spec. cbn [ui events callback]. rewrite Hrow.
  rewrite showDeleteConfirm_run. cbn [snd ui events workspaceToDelete].
  rewrite closeDeleteModal_run. cbn [snd ui events].
  rewrite (handleDeleteWorkspace_pending services location_origin
             (ref_of workspace)).
  cbn [snd ui events ref_of ref_id].
  rewrite !app_nil_r.
  repeat split.
Qed.

(** X14. The cells stay consistent.  In every world the user can bring
    about: [loading] is false; the confirmation is open exactly when a
    workspace is pending deletion; and when the creation dialog is closed
    the draft name is empty, so the dialog opens empty each time. *)
Theorem reachable_consistent (w : World) :
  reachable services location_origin basePath workspaces w ->
  consistent (ui w).
Proof.
  apply (reachable_ind (fun w => consistent (ui w))).
  - repeat split; simpl; (discriminate || contradiction || auto).
  - intros [u l] a (Hload & Hdel & Hdraft) Ha.
    rewrite perform_spec. cbn [ui] in *.
    destruct a as [row | row | | value | | | |]; cbn [callback offered] in *.
    + destruct (nth_error workspaces row);
        [rewrite handleSwitchWorkspace_ui | unfold run, Eff.ret; cbn [snd ui]].
      all: repeat split; tauto.
    + destruct (nth_error workspaces row); [|discriminate].
      rewrite showDeleteConfirm_run. cbn [snd ui].
      unfold consistent; cbn. repeat split; tauto.
    + rewrite openCreateModal_run. cbn [snd ui].
      unfold consistent; cbn. repeat split; (tauto || discriminate).
    + rewrite onChangeName_run. cbn [snd ui].
      unfold create_modal_rendered in Ha.
      unfold consistent; cbn. repeat split; (tauto || congruence).
    + rewrite closeCreateModal_run. cbn [snd ui].
      unfold consistent; cbn. repeat split; tauto.
    + rewrite handleCreateWorkspace_ui.
      destruct (truthy_string (trim (newWorkspaceName u)));
        [|repeat split; tauto].
      unfold consistent, after_create; cbn. repeat split; tauto.
    + rewrite closeDeleteModal_run. cbn [snd ui].
      unfold consistent; cbn. repeat split; (tauto || discriminate).
    + rewrite handleDeleteWorkspace_ui.
      destruct (workspaceToDelete u) eqn:Hpending.
      * unfold consistent, after_delete; cbn.
        repeat split; (tauto || discriminate).
      * unfold consistent. rewrite Hpending. repeat split; tauto.
Qed.


(** X16. What can be created.  In every world the user can bring
    about, every create call that was made goes to the create address and
    carries a name that is not empty and has white space neither first
    nor last. *)
Theorem reachable_create_calls (w : World) :
  reachable services location_origin basePath workspaces w ->
  forall url n,
    In (CallCreateWorkspace url n) (events w) ->
    url = "/workspaces/create"%string /\ trimmed_name n.
Proof.
  apply (reachable_ind
           (fun w =>
              forall url n,
                In (CallCreateWorkspace url n) (events w) ->
                url = "/workspaces/create"%string /\ trimmed_name n)).
  - intros url n [].
  - intros [u l] a Hcalls Ha url n Hin.
    rewrite perform_spec in Hin. cbn [ui events] in *.
    apply in_app_or in Hin as [Hin | Hin]; [auto|].
    destruct a as [row | row | | value | | | |]; cbn [callback] in Hin.
    + destruct (nth_error workspaces row); [|contradiction].
      apply handleSwitchWorkspace_alphabet in Hin as [Hno _]. discriminate.
    + destruct (nth_error workspaces row); contradiction.
    + contradiction.
    + contradiction.
    + contradiction.
    + apply handleCreateWorkspace_create_calls in Hin as (Hne & -> & ->).
      split; [reflexivity | now apply trim_trimmed].
    + contradiction.
    + apply handleDeleteWorkspace_alphabet in Hin as [Hno _]. discriminate.
Qed.





End ViewFacts.
(** *** The statements at a session *)

Lemma session_reachable :
  reachable (P := Ref.platform) Scenario.all_ok Scenario.origin Scenario.base
    Scenario.workspaces ViewScenario.session_world.
Proof. exists ViewScenario.session. vm_compute. reflexivity. Qed.

(** X13: the icon of [alpha], the first row. *)
Lemma delete_from_icon_witness :
  events (perform (P := Ref.platform) Scenario.all_ok Scenario.origin
            Scenario.base Scenario.workspaces ClickDelete
            (perform (P := Ref.platform) Scenario.all_ok Scenario.origin
               Scenario.base Scenario.workspaces (ClickDeleteIcon 0)
               ViewScenario.mount))
  = [CallDeleteWorkspace "/workspaces/delete" (lit "w1");
     deleted_successfully; LocationAssign Scenario.origin].
Proof.
  exact (proj1 (proj2 (proj2
           (@delete_from_icon Ref.platform Scenario.all_ok Scenario.origin
              Scenario.base Scenario.workspaces 0 Scenario.alpha
              ViewScenario.mount eq_refl eq_refl)))).
Defined.

(** X14: the cells after the session. *)
Lemma reachable_consistent_witness :
  consistent (ui ViewScenario.session_world).
Proof.
  exact (@reachable_consistent Ref.platform Scenario.all_ok Scenario.origin
           Scenario.base Scenario.workspaces ViewScenario.session_world
           session_reachable).
Defined.


(** X16: the create call of the session. *)
Lemma reachable_create_calls_witness :
  trimmed_name (lit "team").
Proof.
  refine (proj2
            (@reachable_create_calls Ref.platform Scenario.all_ok
               Scenario.origin Scenario.base Scenario.workspaces
               ViewScenario.session_world session_reachable
               "/workspaces/create"%string (lit "team") _)).
  vm_compute. left. reflexivity.
Defined.


End WorkplaceSelectorViewFacts.

(* ================================================================= *)
(** ** The reference platform is a platform *)

(** The two facts the round trip of the decoder asks of a platform,
    that [JSON.parse] reads back what [JSON.stringify] writes and that
    decoding undoes encoding on it, hold on the reference platform of
    every well-formed value. *)
Module RefFacts.
Import Ref.
Local Open Scope N_scope.

Ltac Zify.zify_post_hook ::= Z.to_euclidean_division_equations.

(** Deciding the comparisons of a goal by linear arithmetic. *)
Ltac decide_cmp :=
  repeat match goal with
  | |- context [?a <=? ?b] =>
      first [ replace (a <=? b) with true
                by (symmetry; apply N.leb_le; lia)
            | replace (a <=? b) with false
                by (symmetry; apply N.leb_gt; lia) ]
  | |- context [?a <? ?b] =>
      first [ replace (a <? b) with true
                by (symmetry; apply N.ltb_lt; lia)
            | replace (a <? b) with false
                by (symmetry; apply N.ltb_ge; lia) ]
  | |- context [?a =? ?b] =>
      first [ replace (a =? b) with true
                by (symmetry; apply N.eqb_eq; lia)
            | replace (a =? b) with false
                by (symmetry; apply N.eqb_neq; lia) ]
  end;
  cbn [andb orb negb].

Lemma hex_val_hex_digit (d : N) : d < 16 -> hex_val (hex_digit d) = Some d.
Proof.
  intros H. unfold hex_digit, hex_val, is_digit.
  destruct (N.ltb_spec d 10); decide_cmp; f_equal; lia.
Qed.

Lemma hex4_escape (c : N) :
  c < 65536 ->
  hex4 (hex_digit (c / 4096 mod 16)) (hex_digit (c / 256 mod 16))
       (hex_digit (c / 16 mod 16)) (hex_digit (c mod 16)) = Some c.
Proof.
  intros H. unfold hex4.
  rewrite !hex_val_hex_digit by (apply N.mod_lt; discriminate).
  f_equal.
  change 4096 with (16 * (16 * 16)). change 256 with (16 * 16).
  rewrite <- !N.Div0.div_div.
  lia.
Qed.

Lemma psb_quote (rest acc : JSString) :
  parse_string_body (34 :: rest) acc = Some (rev acc, rest).
Proof. reflexivity. Qed.

Lemma psb_escape (e u : N) (s acc : JSString) :
  e <> 117 -> unescape e = Some u ->
  parse_string_body (92 :: e :: s) acc = parse_string_body s (u :: acc).
Proof.
  intros He Hu. cbn [parse_string_body].
  change (92 =? 34) with false. change (92 =? 92) with true. cbv iota.
  apply N.eqb_neq in He. rewrite He, Hu. reflexivity.
Qed.

Lemma psb_unicode (h1 h2 h3 h4 u : N) (s acc : JSString) :
  hex4 h1 h2 h3 h4 = Some u ->
  parse_string_body (92 :: 117 :: h1 :: h2 :: h3 :: h4 :: s) acc
  = parse_string_body s (u :: acc).
Proof.
  intros Hu. cbn [parse_string_body].
  change (92 =? 34) with false. change (92 =? 92) with true.
  change (117 =? 117) with true. cbv iota.
  rewrite Hu. reflexivity.
Qed.

Lemma psb_literal (c : N) (s acc : JSString) :
  c <> 34 -> c <> 92 -> 32 <= c ->
  parse_string_body (c :: s) acc = parse_string_body s (c :: acc).
Proof.
  intros H1 H2 H3. cbn [parse_string_body].
  apply N.eqb_neq in H1, H2. rewrite H1, H2.
  replace (c <? 32) with false by (symmetry; apply N.ltb_ge; exact H3).
  reflexivity.
Qed.

Lemma psb_escape_unit (c : N) (s acc : JSString) :
  c < 65536 ->
  parse_string_body (escape_unit c ++ s) acc = parse_string_body s (c :: acc).
Proof.
  intros H. unfold escape_unit. cbn [app].
  apply psb_unicode, hex4_escape, H.
Qed.

Lemma rev_cons_app {A} (x : A) (acc s : list A) :
  rev (x :: acc) ++ s = rev acc ++ x :: s.
Proof. simpl. now rewrite <- app_assoc. Qed.

(** The case of a character written as backslash and [e]. *)
Ltac solve_escape e u :=
  cbn [app];
  match goal with
  | IHr : forall acc, parse_string_body _ acc = _ |- _ =>
      rewrite (psb_escape e u), IHr by (discriminate || reflexivity);
      now rewrite rev_cons_app
  end.

(** Reading back what [quote_body] writes. *)
Lemma parse_string_body_quote_body (n : nat) :
  forall s : JSString,
    (List.length s <= n)%nat ->
    Forall (fun c => c < 65536) s ->
    forall acc rest,
      parse_string_body (quote_body s ++ 34 :: rest) acc
      = Some (rev acc ++ s, rest).
Proof.
  induction n as [|n IH]; intros s Hlen Hs acc rest.
  - destruct s; [|simpl in Hlen; lia].
    simpl. now rewrite app_nil_r.
  - destruct s as [|c r]; [simpl; now rewrite app_nil_r|].
    simpl in Hlen. inversion Hs as [|? ? Hc Hr]; subst.
    assert (IHr : forall acc, parse_string_body (quote_body r ++ 34 :: rest) acc
                              = Some (rev acc ++ r, rest))
      by (intros; apply IH; [lia | assumption]).
    cbn [quote_body].
    destruct (N.eqb_spec c 8) as [-> | H8]; [solve_escape 98 8 | ].
    destruct (N.eqb_spec c 9) as [-> | H9]; [solve_escape 116 9 | ].
    destruct (N.eqb_spec c 10) as [-> | H10]; [solve_escape 110 10 | ].
    destruct (N.eqb_spec c 12) as [-> | H12]; [solve_escape 102 12 | ].
    destruct (N.eqb_spec c 13) as [-> | H13]; [solve_escape 114 13 | ].
    destruct (N.eqb_spec c 34) as [-> | H34]; [solve_escape 34 34 | ].
    destruct (N.eqb_spec c 92) as [-> | H92]; [solve_escape 92 92 | ].
    destruct (N.ltb_spec c 32) as [H32 | H32].
    { rewrite <- app_assoc, psb_escape_unit, IHr by assumption.
      now rewrite rev_cons_app. }
    destruct (is_high_surrogate c) eqn:Hhigh.
    { destruct r as [|d r'].
      - rewrite psb_escape_unit by assumption. cbn [app].
        rewrite psb_quote. reflexivity.
      - destruct (is_low_surrogate d) eqn:Hlow.
        + cbn [app].
          unfold is_low_surrogate in Hlow.
          apply andb_true_iff in Hlow as [Hl1 Hl2].
          apply N.leb_le in Hl1, Hl2.
          rewrite psb_literal by assumption.
          rewrite psb_literal by lia.
          inversion Hr; subst. simpl in Hlen.
          rewrite IH by (assumption || lia).
          now rewrite !rev_cons_app.
        + rewrite <- app_assoc, psb_escape_unit, IHr by assumption.
          now rewrite rev_cons_app. }
    destruct (is_low_surrogate c) eqn:Hlow.
    { rewrite <- app_assoc, psb_escape_unit, IHr by assumption.
      now rewrite rev_cons_app. }
    cbn [app]. rewrite psb_literal, IHr by assumption.
    now rewrite rev_cons_app.
Qed.

Lemma parse_string_body_quote (s rest : JSString) :
  Forall (fun c => c < 65536) s ->
  parse_string_body (quote_body s ++ 34 :: rest) [] = Some (s, rest).
Proof.
  intros H.
  exact (parse_string_body_quote_body (List.length s) s (le_n _) H [] rest).
Qed.

Lemma delimiter_not_digit (c : N) : delimiter c -> is_digit c = false.
Proof. intros [-> | [-> | ->]]; reflexivity. Qed.

Lemma take_digits_app (s ds r : JSString) (c : N) (rest : JSString) :
  take_digits s = (ds, r) ->
  is_digit c = false ->
  take_digits (s ++ c :: rest) = (ds, r ++ c :: rest).
Proof.
  revert ds r. induction s as [|x s IH]; intros ds r H Hc.
  - simpl in H. injection H as <- <-. simpl. now rewrite Hc.
  - simpl in H. simpl.
    destruct (is_digit x).
    + destruct (take_digits s) as [ds' r'] eqn:Ht.
      injection H as <- <-.
      now rewrite (IH ds' r' eq_refl Hc).
    + injection H as <- <-. reflexivity.
Qed.

Lemma number_exp_app (tok s t : JSString) (c : N) (rest : JSString) :
  number_exp tok s = Some (t, []) ->
  delimiter c ->
  number_exp tok (s ++ c :: rest) = Some (t, c :: rest).
Proof.
  intros H Hc.
  pose proof (delimiter_not_digit c Hc) as Hd.
  destruct s as [|e s1].
  - simpl in H. injection H as <-.
    destruct Hc as [-> | [-> | ->]]; reflexivity.
  - cbn [app]. unfold number_exp in *.
    destruct ((e =? 101) || (e =? 69)); [|discriminate].
    destruct s1 as [|c1 s2]; [discriminate|].
    cbn [app].
    destruct ((c1 =? 43) || (c1 =? 45)).
    + destruct (take_digits s2) as [[|d ds] s3] eqn:Ht; [discriminate|].
      injection H as <- ->.
      now rewrite (take_digits_app s2 _ _ c rest Ht Hd).
    + destruct (take_digits (c1 :: s2)) as [[|d ds] s3] eqn:Ht; [discriminate|].
      injection H as <- ->.
      change (c1 :: s2 ++ c :: rest) with ((c1 :: s2) ++ c :: rest).
      now rewrite (take_digits_app (c1 :: s2) _ _ c rest Ht Hd).
Qed.

Lemma number_frac_app (tok s t : JSString) (c : N) (rest : JSString) :
  number_frac tok s = Some (t, []) ->
  delimiter c ->
  number_frac tok (s ++ c :: rest) = Some (t, c :: rest).
Proof.
  intros H Hc.
  pose proof (delimiter_not_digit c Hc) as Hd.
  destruct s as [|x s1].
  - simpl in H. injection H as <-.
    destruct Hc as [-> | [-> | ->]]; reflexivity.
  - cbn [app]. unfold number_frac in *.
    destruct (x =? 46).
    + destruct (take_digits s1) as [[|d ds] s2] eqn:Ht; [discriminate|].
      rewrite (take_digits_app s1 _ _ c rest Ht Hd).
      apply number_exp_app; assumption.
    + change (x :: s1 ++ c :: rest) with ((x :: s1) ++ c :: rest).
      apply number_exp_app; assumption.
Qed.

Lemma parse_number_app (s t : JSString) (c : N) (rest : JSString) :
  parse_number s = Some (t, []) ->
  delimiter c ->
  parse_number (s ++ c :: rest) = Some (t, c :: rest).
Proof.
  intros H Hc.
  pose proof (delimiter_not_digit c Hc) as Hd.
  unfold parse_number in *.
  destruct s as [|c0 s1]; [discriminate|].
  cbn [app].
  destruct (c0 =? 45).
  - destruct s1 as [|c1 s2]; [discriminate|].
    cbn [app].
    destruct (c1 =? 48).
    + apply number_frac_app; assumption.
    + destruct (is_digit c1); [|discriminate].
      destruct (take_digits (c1 :: s2)) as [ds s3] eqn:Ht.
      change (c1 :: s2 ++ c :: rest) with ((c1 :: s2) ++ c :: rest).
      rewrite (take_digits_app (c1 :: s2) _ _ c rest Ht Hd).
      apply number_frac_app; assumption.
  - destruct (c0 =? 48).
    + apply number_frac_app; assumption.
    + destruct (is_digit c0); [|discriminate].
      destruct (take_digits (c0 :: s1)) as [ds s3] eqn:Ht.
      change (c0 :: s1 ++ c :: rest) with ((c0 :: s1) ++ c :: rest).
      rewrite (take_digits_app (c0 :: s1) _ _ c rest Ht Hd).
      apply number_frac_app; assumption.
Qed.

(** A number literal starts with a sign or with a digit. *)
Lemma parse_number_head (s t r : JSString) :
  parse_number s = Some (t, r) ->
  exists c s', s = c :: s' /\ (c = 45 \/ is_digit c = true).
Proof.
  unfold parse_number. intros H.
  destruct s as [|c0 s1]; [discriminate|].
  exists c0, s1. split; [reflexivity|].
  destruct (N.eqb_spec c0 45) as [-> | Hne]; [now left|].
  right.
  destruct (N.eqb_spec c0 48) as [-> | Hne']; [reflexivity|].
  destruct (is_digit c0); [reflexivity | discriminate].
Qed.

Lemma value_ind (Q : Value -> Prop) :
  Q JNull ->
  (forall b, Q (JBool b)) ->
  (forall n, Q (JNumber n)) ->
  (forall s, Q (JString s)) ->
  (forall items, Forall Q items -> Q (JArray items)) ->
  (forall fields, Forall (fun kv => Q (snd kv)) fields -> Q (JObject fields)) ->
  forall v, Q v.
Proof.
  intros Hnull Hbool Hnum Hstr Harr Hobj.
  fix IH 1. intros [| b | n | s | items | fields].
  - exact Hnull.
  - apply Hbool.
  - apply Hnum.
  - apply Hstr.
  - apply Harr. induction items as [|x items IHitems]; constructor.
    + apply IH.
    + exact IHitems.
  - apply Hobj. induction fields as [|[k x] fields IHfields]; constructor.
    + apply IH.
    + exact IHfields.
Qed.

Lemma skip_ws_head (c : N) (s : JSString) :
  is_ws c = false -> skip_ws (c :: s) = c :: s.
Proof. intros H. simpl. now rewrite H. Qed.

Lemma skip_ws_delimited (rest : JSString) :
  delimited rest -> skip_ws rest = rest.
Proof.
  destruct rest as [|c r]; [reflexivity|].
  intros [-> | [-> | ->]]; reflexivity.
Qed.

Lemma stringify_head (v : Value) :
  well_formed v ->
  exists c t, stringify v = c :: t /\ value_start c.
Proof.
  intros H.
  destruct H as [| [|] | tok Htok | s Hs | items Hitems | fields Hnd Hf];
    try (eexists _, _; split; [reflexivity|];
         repeat split; (discriminate || reflexivity)).
  destruct (parse_number_head _ _ _ Htok) as (c & t & -> & Hc).
  exists c, t. split; [reflexivity|].
  destruct Hc as [-> | Hc].
  - repeat split; (discriminate || reflexivity).
  - unfold is_digit in Hc. apply andb_true_iff in Hc as [H1 H2].
    apply N.leb_le in H1, H2.
    unfold value_start, is_ws.
    repeat split; try lia.
    decide_cmp. reflexivity.
Qed.

Lemma parse_elements_join (items : list Value) :
  Forall reads_back items ->
  forall x acc fuel rest,
    reads_back x ->
    (items_size (x :: items) <= fuel)%nat ->
    parse_elements fuel
      (join [44] (map stringify (x :: items)) ++ 93 :: rest) acc
    = Some (JArray (rev acc ++ x :: items), rest).
Proof.
  induction 1 as [|y items Hy Hitems IH]; intros x acc fuel rest Hx Hfuel;
    (destruct fuel as [|fuel]; [simpl in Hfuel; lia|]);
    cbn [items_size fold_right] in Hfuel; try fold (items_size items) in Hfuel.
  - cbn [map join parse_elements].
    rewrite (Hx fuel (93 :: rest)) by (lia || (right; left; reflexivity)).
    rewrite (skip_ws_head 93) by reflexivity.
    reflexivity.
  - change (join [44] (map stringify (x :: y :: items)))
      with (stringify x ++ [44] ++ join [44] (map stringify (y :: items))).
    rewrite <- !app_assoc. cbn [app parse_elements].
    rewrite (Hx fuel) by (lia || (left; reflexivity)).
    rewrite (skip_ws_head 44) by reflexivity.
    change (44 =? 44) with true. cbv iota.
    rewrite IH
      by (assumption
          || (cbn [items_size fold_right]; fold (items_size items); lia)).
    now rewrite rev_cons_app.
Qed.

Lemma set_field_fresh {A} (k : JSString) (v : A) (acc : list (JSString * A)) :
  ~ In k (map fst acc) -> set_field k v acc = acc ++ [(k, v)].
Proof.
  induction acc as [|[k' v'] acc IH]; intros Hk.
  - reflexivity.
  - simpl in Hk. simpl.
    destruct (jsstr_eqb k k') eqn:E.
    + apply jsstr_eqb_eq in E. subst k'. exfalso. apply Hk. now left.
    + rewrite IH; [reflexivity|]. intros Hin. apply Hk. now right.
Qed.

Lemma member_text_app (k : JSString) (v : Value) (tail : JSString) :
  member_text (k, v) ++ tail
  = 34 :: quote_body k ++ 34 :: 58 :: stringify v ++ tail.
Proof.
  unfold member_text, quote. cbn [fst snd app].
  rewrite <- !app_assoc. reflexivity.
Qed.

Lemma parse_members_step (k : JSString) (v : Value) (c3 : N) (r4 : JSString)
      (acc : list (JSString * Value)) (fuel : nat) :
  code_units k -> reads_back v -> (size v <= fuel)%nat -> delimiter c3 ->
  parse_members (S fuel) (member_text (k, v) ++ c3 :: r4) acc
  = if c3 =? 44 then parse_members fuel r4 (set_field k v acc)
    else if c3 =? 125 then Some (JObject (set_field k v acc), r4)
    else None.
Proof.
  intros Hk Hv Hfuel Hc3.
  rewrite member_text_app. cbn [parse_members].
  rewrite (skip_ws_head 34) by reflexivity.
  change (34 =? 34) with true. cbv iota.
  rewrite parse_string_body_quote by exact Hk.
  rewrite (skip_ws_head 58) by reflexivity.
  change (58 =? 58) with true. cbv iota.
  rewrite (Hv fuel (c3 :: r4) Hfuel Hc3).
  rewrite (skip_ws_delimited (c3 :: r4) Hc3).
  reflexivity.
Qed.

Lemma parse_members_join (fields : list (JSString * Value)) :
  Forall (fun kv => code_units (fst kv) /\ reads_back (snd kv)) fields ->
  forall kv acc fuel rest,
    code_units (fst kv) -> reads_back (snd kv) ->
    NoDup (map fst (acc ++ kv :: fields)) ->
    (fields_size (kv :: fields) <= fuel)%nat ->
    parse_members fuel
      (join [44] (map member_text (kv :: fields)) ++ 125 :: rest) acc
    = Some (JObject (acc ++ kv :: fields), rest).
Proof.
  induction 1 as [|kv' fields [Hk' Hv'] Hfields IH];
    intros [k v] acc fuel rest Hk Hv Hnd Hfuel;
    (destruct fuel as [|fuel]; [simpl in Hfuel; lia|]);
    cbn [fields_size fold_right snd] in Hfuel;
    try fold (fields_size fields) in Hfuel;
    cbn [fst snd] in Hk, Hv;
    assert (Hfresh : ~ In k (map fst acc))
      by (rewrite map_app in Hnd; apply NoDup_remove_2 in Hnd;
          intros Hin; apply Hnd; apply in_or_app; now left).
  - cbn [map join].
    rewrite parse_members_step
      by (assumption || lia || (right; right; reflexivity)).
    change (125 =? 44) with false. change (125 =? 125) with true. cbv iota.
    now rewrite set_field_fresh.
  - change (join [44] (map member_text ((k, v) :: kv' :: fields)))
      with (member_text (k, v) ++ [44]
            ++ join [44] (map member_text (kv' :: fields))).
    rewrite <- !app_assoc. cbn [app].
    rewrite parse_members_step
      by (assumption || lia || (left; reflexivity)).
    change (44 =? 44) with true. cbv iota.
    rewrite set_field_fresh by assumption.
    rewrite IH.
    + now rewrite <- app_assoc.
    + assumption.
    + assumption.
    + now rewrite <- app_assoc.
    + cbn [fields_size fold_right]. fold (fields_size fields). lia.
Qed.

Lemma join_head (sep x : JSString) (l : list JSString) (c : N) (t : JSString) :
  x = c :: t -> exists t', join sep (x :: l) = c :: t'.
Proof.
  intros ->. destruct l as [|y l].
  - now exists t.
  - exists (t ++ sep ++ join sep (y :: l)). reflexivity.
Qed.

Lemma open_bracket (fuel : nat) (c : N) (t : JSString) :
  value_start c ->
  match skip_ws (c :: t) with
  | c2 :: r2 =>
      if c2 =? 93 then Some (JArray [], r2)
      else parse_elements fuel (c :: t) []
  | [] => None
  end = parse_elements fuel (c :: t) [].
Proof.
  intros (Hws & H93 & _). rewrite skip_ws_head by exact Hws.
  apply N.eqb_neq in H93. now rewrite H93.
Qed.

Lemma Forall_impl_Forall {A} (Q R : A -> Prop) (l : list A) :
  Forall (fun x => Q x -> R x) l -> Forall Q l -> Forall R l.
Proof.
  induction 1 as [|x l Hx Hl IH]; intros HQ; constructor;
    inversion HQ; subst; auto.
Qed.

(** The reader inverts the writer, inside any text where the value is
    followed by a delimiter or by nothing. *)
Lemma parse_value_stringify (v : Value) : well_formed v -> reads_back v.
Proof.
  induction v as [| b | tok | s | items IH | fields IH] using value_ind;
    intros Hwf fuel rest Hfuel Hrest;
    (destruct fuel as [|fuel]; [simpl in Hfuel; lia|]);
    inversion Hwf as [| | ? Htok | ? Hs | ? Hitems | ? Hnd Hfields]; subst.
  - reflexivity.
  - destruct b; reflexivity.
  - destruct (parse_number_head _ _ _ Htok) as (c & t & -> & Hc).
    assert (Hnum : parse_number ((c :: t) ++ rest) = Some (c :: t, rest)).
    { destruct rest as [|d r].
      - now rewrite app_nil_r.
      - apply parse_number_app; assumption. }
    assert (Hrange : c = 45 \/ (48 <= c /\ c <= 57)).
    { destruct Hc as [-> | Hc]; [now left | right].
      unfold is_digit in Hc. apply andb_true_iff in Hc as [H1 H2].
      apply N.leb_le in H1, H2. now split. }
    cbn [stringify app parse_value].
    rewrite skip_ws_head by (unfold is_ws; decide_cmp; reflexivity).
    change (lit "true") with [116; 114; 117; 101].
    change (lit "false") with [102; 97; 108; 115; 101].
    change (lit "null") with [110; 117; 108; 108].
    cbn [starts_with].
    decide_cmp.
    change (c :: t ++ rest) with ((c :: t) ++ rest).
    now rewrite Hnum.
  - cbn [stringify]. unfold quote. rewrite <- !app_assoc.
    cbn [app parse_value].
    rewrite (skip_ws_head 34) by reflexivity.
    change (34 =? 123) with false. change (34 =? 91) with false.
    change (34 =? 34) with true. cbv iota.
    now rewrite parse_string_body_quote.
  - destruct items as [|x items].
    + reflexivity.
    + inversion IH as [|? ? IHx IHitems]; subst.
      inversion Hitems as [|? ? Hx Hitems']; subst.
      cbn [stringify]. rewrite <- !app_assoc.
      cbn [app parse_value].
      rewrite (skip_ws_head 91) by reflexivity.
      change (91 =? 123) with false. change (91 =? 91) with true. cbv iota.
      destruct (stringify_head x Hx) as (c & t & Hhead & Hstart).
      destruct (join_head [44] (stringify x) (map stringify items) c t Hhead)
        as (t' & Hjoin).
      change (stringify x :: map stringify items)
        with (map stringify (x :: items)) in Hjoin.
      rewrite Hjoin. cbn [app].
      rewrite open_bracket by exact Hstart.
      change (c :: t' ++ 93 :: rest) with ((c :: t') ++ 93 :: rest).
      rewrite <- Hjoin.
      apply (parse_elements_join items).
      * exact (Forall_impl_Forall _ _ _ IHitems Hitems').
      * exact (IHx Hx).
      * simpl in Hfuel. unfold items_size. simpl. lia.
  - destruct fields as [|[k x] fields].
    + reflexivity.
    + inversion IH as [|? ? IHx IHfields]; subst.
      inversion Hfields as [|? ? [Hk Hx] Hfields']; subst.
      cbn [fst snd] in *.
      change (stringify (JObject ((k, x) :: fields)))
        with ([123] ++ join [44] (map member_text ((k, x) :: fields)) ++ [125]).
      rewrite <- !app_assoc.
      cbn [app parse_value].
      rewrite (skip_ws_head 123) by reflexivity.
      change (123 =? 123) with true. cbv iota.
      destruct (join_head [44] (member_text (k, x)) (map member_text fields)
                  34 (quote_body k ++ [34] ++ [58] ++ stringify x))
        as (t' & Hjoin).
      { unfold member_text, quote. cbn [fst snd app].
        now rewrite <- !app_assoc. }
      change (member_text (k, x) :: map member_text fields)
        with (map member_text ((k, x) :: fields)) in Hjoin.
      rewrite Hjoin. cbn [app].
      rewrite (skip_ws_head 34) by reflexivity.
      change (34 =? 125) with false. cbv iota.
      change (34 :: t' ++ 125 :: rest) with ((34 :: t') ++ 125 :: rest).
      rewrite <- Hjoin.
      apply (parse_members_join fields).
      * clear - IHfields Hfields'.
        induction IHfields as [|kv fields Hkv _ IH']; constructor;
          inversion Hfields' as [|? ? [Hk Hx] Hrest]; subst.
        -- split; [exact Hk | exact (Hkv Hx)].
        -- exact (IH' Hrest).
      * exact Hk.
      * exact (IHx Hx).
      * exact Hnd.
      * simpl in Hfuel. unfold fields_size. simpl. lia.
Qed.

Lemma join_length (x : JSString) (l : list JSString) :
  S (List.length (join [44] (x :: l))) = texts_length (x :: l).
Proof.
  revert x. induction l as [|y l IH]; intros x.
  - simpl. lia.
  - change (join [44] (x :: y :: l)) with (x ++ [44] ++ join [44] (y :: l)).
    rewrite !length_app.
    change (texts_length (x :: y :: l))
      with (S (List.length x + texts_length (y :: l))).
    rewrite <- IH. simpl. lia.
Qed.

Lemma size_le_length (v : Value) :
  well_formed v -> (size v <= 2 * List.length (stringify v))%nat.
Proof.
  induction v as [| b | tok | s | items IH | fields IH] using value_ind;
    intros Hwf;
    inversion Hwf as [| | ? Htok | ? Hs | ? Hitems | ? Hnd Hfields]; subst.
  - simpl. lia.
  - destruct b; simpl; lia.
  - destruct (parse_number_head _ _ _ Htok) as (c & t & -> & _). simpl. lia.
  - cbn [stringify size]. unfold quote. rewrite !length_app. simpl. lia.
  - destruct items as [|x items]; [simpl; lia|].
    cbn [stringify size]. rewrite !length_app.
    pose proof (join_length (stringify x) (map stringify items)) as Hj.
    change (stringify x :: map stringify items)
      with (map stringify (x :: items)) in Hj.
    assert (Hsum : (fold_right (fun x n => S (size x + n)) 0 (x :: items)
                    <= 2 * texts_length (map stringify (x :: items)))%nat).
    { clear Hj Hwf. induction IH as [|y l Hy _ IHl]; [simpl; lia|].
      inversion Hitems as [|? ? Hwy Hl]; subst.
      specialize (Hy Hwy). specialize (IHl Hl).
      change (texts_length (map stringify (y :: l)))
        with (S (List.length (stringify y) + texts_length (map stringify l))).
      cbn [fold_right]. lia. }
    change (List.length [91]) with 1%nat.
    change (List.length [93]) with 1%nat. lia.
  - destruct fields as [|kv fields]; [simpl; lia|].
    change (stringify (JObject (kv :: fields)))
      with ([123] ++ join [44] (map member_text (kv :: fields)) ++ [125]).
    cbn [size]. rewrite !length_app.
    pose proof (join_length (member_text kv) (map member_text fields)) as Hj.
    change (member_text kv :: map member_text fields)
      with (map member_text (kv :: fields)) in Hj.
    assert (Hsum : (fold_right (fun kv n => S (size (snd kv) + n)) 0
                      (kv :: fields)
                    <= 2 * texts_length (map member_text (kv :: fields)))%nat).
    { clear Hj Hwf Hnd. induction IH as [|y l Hy _ IHl]; [simpl; lia|].
      inversion Hfields as [|? ? [_ Hwy] Hl]; subst.
      specialize (Hy Hwy). specialize (IHl Hl).
      change (texts_length (map member_text (y :: l)))
        with (S (List.length (member_text y)
                 + texts_length (map member_text l))).
      cbn [fold_right]. unfold member_text at 1. rewrite !length_app. lia. }
    change (List.length [123]) with 1%nat.
    change (List.length [125]) with 1%nat. lia.
Qed.

(** [parse] inverts [stringify] on every well-formed value. *)
Lemma parse_stringify (v : Value) :
  well_formed v -> parse (stringify v) = Some v.
Proof.
  intros Hwf. unfold parse.
  pose proof (parse_value_stringify v Hwf
                (2 * List.length (stringify v) + 2)%nat []) as H.
  rewrite app_nil_r in H.
  rewrite H; [reflexivity | | exact I].
  pose proof (size_le_length v Hwf). lia.
Qed.

Lemma surrogate_range (c : N) :
  is_surrogate c = false <-> (c < 55296 \/ 57343 < c).
Proof.
  unfold is_surrogate, is_high_surrogate, is_low_surrogate.
  rewrite orb_false_iff, !andb_false_iff, !N.leb_gt. lia.
Qed.

Lemma utf8_decode_code_point (cp : N) (bs : list N) :
  scalar cp ->
  utf8_decode_from utf8_init (utf8_of_code_point cp ++ bs)
  = cp :: utf8_decode_from utf8_init bs.
Proof.
  intros [Hmax Hsur]. apply surrogate_range in Hsur.
  unfold utf8_of_code_point.
  destruct (N.ltb_spec cp 128) as [H1 | H1].
  { cbn [app utf8_decode_from]. unfold utf8_step, utf8_lead.
    cbn [bytes_needed utf8_init]. decide_cmp. reflexivity. }
  destruct (N.ltb_spec cp 2048) as [H2 | H2].
  { cbn [app utf8_decode_from]. unfold utf8_step at 1, utf8_lead.
    cbn [bytes_needed utf8_init]. decide_cmp.
    unfold utf8_step, utf8_lead.
    cbn [bytes_needed lower_boundary upper_boundary code_point].
    decide_cmp. cbn [app]. f_equal. lia. }
  destruct (N.ltb_spec cp 65536) as [H3 | H3].
  { cbn [app utf8_decode_from]. unfold utf8_step at 1, utf8_lead.
    cbn [bytes_needed utf8_init]. decide_cmp.
    assert (Hcase : cp / 4096 = 0 \/ cp / 4096 = 13
                    \/ (cp / 4096 <> 0 /\ cp / 4096 <> 13)) by lia.
    destruct Hcase as [Hc | [Hc | [Hc Hc']]];
      unfold utf8_step at 1, utf8_lead;
      cbn [bytes_needed lower_boundary upper_boundary code_point];
      decide_cmp;
      unfold utf8_step, utf8_lead;
      cbn [bytes_needed lower_boundary upper_boundary code_point];
      decide_cmp; cbn [app]; f_equal; lia. }
  cbn [app utf8_decode_from]. unfold utf8_step at 1, utf8_lead.
  cbn [bytes_needed utf8_init]. decide_cmp.
  assert (Hcase : cp / 262144 = 0 \/ cp / 262144 = 4
                  \/ (cp / 262144 <> 0 /\ cp / 262144 <> 4)) by lia.
  destruct Hcase as [Hc | [Hc | [Hc Hc']]];
    unfold utf8_step at 1, utf8_lead;
    cbn [bytes_needed lower_boundary upper_boundary code_point];
    decide_cmp;
    unfold utf8_step at 1, utf8_lead;
    cbn [bytes_needed lower_boundary upper_boundary code_point];
    decide_cmp;
    unfold utf8_step, utf8_lead;
    cbn [bytes_needed lower_boundary upper_boundary code_point];
    decide_cmp; cbn [app]; f_equal; lia.
Qed.

Lemma utf8_decode_code_points (cps : list N) :
  Forall scalar cps ->
  utf8_decode_from utf8_init (flat_map utf8_of_code_point cps) = cps.
Proof.
  induction 1 as [|cp cps Hcp _ IH].
  - reflexivity.
  - cbn [flat_map]. rewrite utf8_decode_code_point by exact Hcp.
    now rewrite IH.
Qed.

Lemma utf8_of_code_point_bytes (cp : N) :
  scalar cp -> Forall (fun b => b < 256) (utf8_of_code_point cp).
Proof.
  intros [Hmax _]. unfold utf8_of_code_point.
  destruct (N.ltb_spec cp 128); [|destruct (N.ltb_spec cp 2048);
    [|destruct (N.ltb_spec cp 65536)]];
    repeat constructor; lia.
Qed.

Lemma to_N_byte_of_N (l : list N) :
  Forall (fun b => b < 256) l -> map Byte.to_N (map byte_of_N l) = l.
Proof.
  induction 1 as [|b l Hb _ IH]; [reflexivity|].
  cbn [map]. rewrite IH. f_equal.
  unfold byte_of_N. destruct (Byte.of_N b) as [x|] eqn:E.
  - now apply Byte.to_of_N.
  - apply Byte.of_N_None_iff in E. lia.
Qed.

Lemma code_points_scalar (s : JSString) :
  paired s -> Forall scalar (code_points s).
Proof.
  induction 1 as [| c s Hc Hsur _ IH | h l s Hh Hl _ IH].
  - constructor.
  - cbn [code_points].
    unfold is_surrogate in Hsur. apply orb_false_iff in Hsur as [Hh Hl].
    rewrite Hh, Hl. constructor; [|exact IH].
    split; [lia|]. unfold is_surrogate. now rewrite Hh, Hl.
  - cbn [code_points]. rewrite Hh, Hl. constructor; [|exact IH].
    unfold is_high_surrogate in Hh. unfold is_low_surrogate in Hl.
    apply andb_true_iff in Hh as [Hh1 Hh2]. apply andb_true_iff in Hl as [Hl1 Hl2].
    apply N.leb_le in Hh1, Hh2, Hl1, Hl2.
    split; [lia|]. apply surrogate_range. lia.
Qed.

Lemma utf16_code_points (s : JSString) :
  paired s -> flat_map utf16_of_code_point (code_points s) = s.
Proof.
  induction 1 as [| c s Hc Hsur _ IH | h l s Hh Hl _ IH].
  - reflexivity.
  - cbn [code_points].
    unfold is_surrogate in Hsur. apply orb_false_iff in Hsur as [Hh Hl].
    rewrite Hh, Hl. cbn [flat_map]. rewrite IH.
    unfold utf16_of_code_point. decide_cmp. reflexivity.
  - cbn [code_points]. rewrite Hh, Hl. cbn [flat_map]. rewrite IH.
    unfold is_high_surrogate in Hh. unfold is_low_surrogate in Hl.
    apply andb_true_iff in Hh as [Hh1 Hh2]. apply andb_true_iff in Hl as [Hl1 Hl2].
    apply N.leb_le in Hh1, Hh2, Hl1, Hl2.
    unfold utf16_of_code_point. decide_cmp. cbn [app].
    f_equal; [lia|]. f_equal. lia.
Qed.

(** [decode] inverts [encode] on every string whose surrogates are
    paired and that does not start with a byte order mark. *)
Lemma decode_encode (s : JSString) :
  paired s -> hd_error s <> Some 65279 ->
  decode (Some (encode s)) = s.
Proof.
  intros Hp Hbom. unfold decode, encode.
  pose proof (code_points_scalar s Hp) as Hsc.
  rewrite to_N_byte_of_N.
  - rewrite utf8_decode_code_points by exact Hsc.
    replace (strip_bom (code_points s)) with (code_points s).
    + now apply utf16_code_points.
    + destruct Hp as [| c s Hc Hsur _ | h l s Hh Hl _]; [reflexivity | |].
      * cbn [code_points].
        unfold is_surrogate in Hsur. apply orb_false_iff in Hsur as [Hh Hl].
        rewrite Hh, Hl. cbn [strip_bom].
        destruct (N.eqb_spec c 65279) as [-> | Hne];
          [exfalso; now apply Hbom | reflexivity].
      * cbn [code_points]. rewrite Hh, Hl. cbn [strip_bom].
        unfold is_high_surrogate in Hh. unfold is_low_surrogate in Hl.
        apply andb_true_iff in Hh as [Hh1 Hh2].
        apply andb_true_iff in Hl as [Hl1 Hl2].
        apply N.leb_le in Hh1, Hh2, Hl1, Hl2.
        decide_cmp. reflexivity.
  - clear Hbom. induction Hsc as [|cp cps Hcp _ IH]; [constructor|].
    cbn [flat_map]. apply Forall_app. split.
    + now apply utf8_of_code_point_bytes.
    + exact IH.
Qed.

Lemma paired_app (a b : JSString) : paired a -> paired b -> paired (a ++ b).
Proof.
  induction 1 as [| c s Hc Hsur _ IH | h l s Hh Hl _ IH]; intros Hb;
    cbn [app].
  - exact Hb.
  - apply paired_unit; auto.
  - apply paired_pair; auto.
Qed.

Lemma ascii_paired (s : JSString) : ascii_text s -> paired s.
Proof.
  induction 1 as [|c s Hc _ IH]; constructor; try assumption; try lia.
  apply surrogate_range. lia.
Qed.

Lemma escape_unit_ascii (c : N) : ascii_text (escape_unit c).
Proof.
  assert (Hhex : forall d, d < 16 -> hex_digit d < 128).
  { intros d Hd. unfold hex_digit. destruct (d <? 10); lia. }
  unfold escape_unit.
  repeat constructor; try lia; apply Hhex; apply N.mod_lt; discriminate.
Qed.

Lemma quote_body_paired_len (n : nat) :
  forall s : JSString,
    (List.length s <= n)%nat -> code_units s -> paired (quote_body s).
Proof.
  induction n as [|n IH]; intros s Hlen Hs.
  - destruct s; [constructor | simpl in Hlen; lia].
  - destruct s as [|c r]; [constructor|].
    simpl in Hlen. inversion Hs as [|? ? Hc Hr]; subst.
    assert (IHr : paired (quote_body r)) by (apply IH; [lia | assumption]).
    assert (Hesc : paired (escape_unit c ++ quote_body r))
      by (apply paired_app; [apply ascii_paired, escape_unit_ascii | exact IHr]).
    assert (Htwo : forall a b, a < 128 -> b < 128 ->
                               paired (a :: b :: quote_body r)).
    { intros a b Ha Hb.
      constructor; [lia | apply surrogate_range; lia |].
      constructor; [lia | apply surrogate_range; lia | exact IHr]. }
    cbn [quote_body].
    repeat match goal with
           | |- paired (if ?c =? ?k then _ else _) =>
               destruct (c =? k); [apply Htwo; lia|]
           end.
    destruct (c <? 32); [exact Hesc|].
    destruct (is_high_surrogate c) eqn:Hhigh.
    + destruct r as [|d r'].
      * apply ascii_paired, escape_unit_ascii.
      * destruct (is_low_surrogate d) eqn:Hlow; [|exact Hesc].
        apply paired_pair; try assumption.
        inversion Hr; subst. simpl in Hlen. apply IH; [lia | assumption].
    + destruct (is_low_surrogate c) eqn:Hlow; [exact Hesc|].
      constructor; try assumption.
      unfold is_surrogate. now rewrite Hhigh, Hlow.
Qed.

Lemma quote_paired (s : JSString) : code_units s -> paired (quote s).
Proof.
  intros Hs. unfold quote.
  apply (paired_app [34]); [apply ascii_paired; repeat constructor; lia|].
  apply paired_app; [|apply ascii_paired; repeat constructor; lia].
  exact (quote_body_paired_len (List.length s) s (le_n _) Hs).
Qed.

Lemma take_digits_ascii (s ds r : JSString) :
  take_digits s = (ds, r) -> ascii_text ds.
Proof.
  revert ds r. induction s as [|c s IH]; intros ds r H; simpl in H.
  - injection H as <- <-. constructor.
  - destruct (is_digit c) eqn:Hc.
    + destruct (take_digits s) as [ds' r'] eqn:Ht.
      injection H as <- <-.
      constructor; [|exact (IH ds' r' eq_refl)].
      unfold is_digit in Hc. apply andb_true_iff in Hc as [_ Hc].
      apply N.leb_le in Hc. lia.
    + injection H as <- <-. constructor.
Qed.

Lemma number_exp_ascii (tok s t r : JSString) :
  ascii_text tok -> number_exp tok s = Some (t, r) -> ascii_text t.
Proof.
  intros Htok H. unfold number_exp in H.
  destruct s as [|e s1]; [injection H as <- <-; exact Htok|].
  destruct ((e =? 101) || (e =? 69)) eqn:He;
    [|injection H as <- <-; exact Htok].
  assert (He' : e < 128).
  { apply orb_true_iff in He as [He | He]; apply N.eqb_eq in He; lia. }
  destruct s1 as [|c s2].
  - simpl in H. discriminate.
  - destruct ((c =? 43) || (c =? 45)) eqn:Hc.
    + assert (Hc' : c < 128).
      { apply orb_true_iff in Hc as [Hc | Hc]; apply N.eqb_eq in Hc; lia. }
      destruct (take_digits s2) as [[|d ds] s3] eqn:Ht; [discriminate|].
      injection H as <- <-.
      apply Forall_app; split; [exact Htok|].
      constructor; [exact He'|]. constructor; [exact Hc'|].
      exact (take_digits_ascii _ _ _ Ht).
    + destruct (take_digits (c :: s2)) as [[|d ds] s3] eqn:Ht; [discriminate|].
      injection H as <- <-.
      apply Forall_app; split; [exact Htok|].
      constructor; [exact He'|].
      exact (take_digits_ascii _ _ _ Ht).
Qed.

Lemma number_frac_ascii (tok s t r : JSString) :
  ascii_text tok -> number_frac tok s = Some (t, r) -> ascii_text t.
Proof.
  intros Htok H. unfold number_frac in H.
  destruct s as [|c s1]; [injection H as <- <-; exact Htok|].
  destruct (N.eqb_spec c 46) as [-> | Hne].
  - destruct (take_digits s1) as [[|d ds] s2] eqn:Ht; [discriminate|].
    apply (number_exp_ascii _ _ _ _) in H; [exact H|].
    apply Forall_app; split; [exact Htok|].
    constructor; [lia|]. exact (take_digits_ascii _ _ _ Ht).
  - exact (number_exp_ascii _ _ _ _ Htok H).
Qed.

Lemma parse_number_ascii (s t r : JSString) :
  parse_number s = Some (t, r) -> ascii_text t.
Proof.
  unfold parse_number. intros H.
  destruct s as [|c0 s1]; [discriminate|].
  destruct (N.eqb_spec c0 45) as [-> | Hne].
  - destruct s1 as [|c1 s2]; [discriminate|].
    destruct (N.eqb_spec c1 48) as [-> | Hne'].
    + apply (number_frac_ascii _ _ _ _) in H; [exact H|].
      repeat constructor; lia.
    + destruct (is_digit c1); [|discriminate].
      destruct (take_digits (c1 :: s2)) as [ds s3] eqn:Ht.
      apply (number_frac_ascii _ _ _ _) in H; [exact H|].
      constructor; [lia|]. exact (take_digits_ascii _ _ _ Ht).
  - destruct (N.eqb_spec c0 48) as [-> | Hne'].
    + apply (number_frac_ascii _ _ _ _) in H; [exact H|].
      repeat constructor; lia.
    + destruct (is_digit c0); [|discriminate].
      destruct (take_digits (c0 :: s1)) as [ds s3] eqn:Ht.
      apply (number_frac_ascii _ _ _ _) in H; [exact H|].
      exact (take_digits_ascii _ _ _ Ht).
Qed.

Lemma join_paired (l : list JSString) :
  Forall paired l -> paired (join [44] l).
Proof.
  induction 1 as [|x l Hx Hl IH]; [constructor|].
  destruct l as [|y l]; [exact Hx|].
  change (join [44] (x :: y :: l)) with (x ++ [44] ++ join [44] (y :: l)).
  apply paired_app; [exact Hx|].
  apply paired_app; [|exact IH].
  apply ascii_paired; repeat constructor; lia.
Qed.

(** What [stringify] writes is well-formed UTF-16. *)
Lemma stringify_paired (v : Value) : well_formed v -> paired (stringify v).
Proof.
  induction v as [| b | tok | s | items IH | fields IH] using value_ind;
    intros Hwf;
    inversion Hwf as [| | ? Htok | ? Hs | ? Hitems | ? Hnd Hfields]; subst.
  - apply ascii_paired. repeat constructor; lia.
  - destruct b; apply ascii_paired; repeat constructor; lia.
  - apply ascii_paired. exact (parse_number_ascii _ _ _ Htok).
  - now apply quote_paired.
  - cbn [stringify].
    apply (paired_app [91]); [apply ascii_paired; repeat constructor; lia|].
    apply paired_app; [|apply ascii_paired; repeat constructor; lia].
    apply join_paired.
    clear Hwf. induction IH as [|x l Hx _ IHl]; [constructor|].
    inversion Hitems; subst. constructor; auto.
  - change (stringify (JObject fields))
      with ([123] ++ join [44] (map member_text fields) ++ [125]).
    apply (paired_app [123]); [apply ascii_paired; repeat constructor; lia|].
    apply paired_app; [|apply ascii_paired; repeat constructor; lia].
    apply join_paired.
    clear Hwf Hnd. induction IH as [|[k x] l Hx _ IHl]; [constructor|].
    inversion Hfields as [|? ? [Hk Hwx] Hl]; subst.
    constructor; [|auto].
    unfold member_text. cbn [fst snd] in *.
    apply paired_app; [now apply quote_paired|].
    apply (paired_app [58]); [apply ascii_paired; repeat constructor; lia|].
    auto.
Qed.

(** On the reference platform, both facts that the round trip of the
    decoder asks of the platform hold of every well-formed value. *)
Lemma platform_round_trip (v : Value) :
  well_formed v ->
  parse (stringify v) = Some v
  /\ decode (Some (encode (stringify v))) = stringify v.
Proof.
  intros Hwf. split.
  - now apply parse_stringify.
  - apply decode_encode.
    + now apply stringify_paired.
    + destruct (stringify_head v Hwf) as (c & t & -> & _ & _ & _ & Hbom & _).
      simpl. congruence.
Qed.

(** The value of the scenarios is well-formed. *)
Example sample_value_well_formed : well_formed Scenario.sample_value.
Proof.
  unfold Scenario.sample_value.
  apply wf_object.
  - cbn [map fst].
    repeat (apply NoDup_cons;
            [cbn [In]; intros H;
             repeat (destruct H as [H | H]; [discriminate H|]); exact H|]).
    apply NoDup_nil.
  - repeat (apply Forall_cons || apply Forall_nil || split
            || apply wf_string || apply wf_null || apply wf_bool
            || apply wf_array || (apply wf_number; reflexivity)
            || (apply wf_object; [apply NoDup_nil|])
            || (unfold code_units; cbn [fst snd lit map list_ascii_of_string
                                        N_of_ascii])
            || reflexivity).
Qed.

(** The decoder on the reference platform, at every well-formed value. *)
Corollary reference_platform_roundtrip (v : Value) :
  well_formed v ->
  fst (ReadStream.readJsonFromStream (P := platform) (R := Empty_set)
         (Some (fresh_stream [encode (stringify v)])))
  = Normal {| ReadStream.data := v; ReadStream.error := None |}.
Proof.
  intros Hwf. destruct (platform_round_trip v Hwf) as [Hparse Hutf8].
  unfold fresh_stream.
  rewrite (readJsonFromStream_unlocked (P := platform)).
  cbn [fst queue hd_error]. unfold decoded_text.
  change (TextDecoder_decode (Some (encode (stringify v))))
    with (decode (Some (encode (stringify v)))).
  rewrite Hutf8.
  change (JSON_parse (stringify v)) with (parse (stringify v)).
  now rewrite Hparse.
Qed.

End RefFacts.
